(** * BraGeo: the ownership ledger of [logic_handler.py]

    A shallow embedding of [src/document_processing/modules/logic_handler.py]:
    the percentage parser, the action normalizer and the ledger handlers
    that rebuild the current owners of a parcel from its recorded acts.

    Modelling conventions.
    - Python [str] values are byte strings holding UTF-8 text.  Case
      mapping, whitespace and accent stripping are exact on ASCII and on the
      Latin-1 letters (two-byte sequences led by 0xC3); other code points are
      left untouched by [lower] and dropped by [normalizar_nome].  Digits
      are the ASCII digits.
    - Python [float] values are exact rationals ([Qc]): rounding, infinities
      and NaN are not represented, so an equality that holds here holds in
      the code up to rounding.  The one float effect kept is the
      [OverflowError] of [float(Fraction(a, b))].
    - [dict] ledgers are [gmap string Registro]; iteration order is not
      represented.
    - An uncaught exception aborts the whole run: code that may raise lives
      in the error monad [res].  Only the warnings of the percentage parser
      are recorded; all other logging is omitted, and so is the final
      formatting of the percentages by [validar_percentuais]. *)

From stdpp Require Import gmap strings list fin_maps numbers pretty.
From Stdlib Require Import QArith Qcanon Ascii String Sorting.Sorted.

Local Open Scope string_scope.
Local Open Scope Qc_scope.

Notation "100" := (Qc_of_Z 100) : Qc_scope.

(** ** Python primitives on strings *)

Definition code (c : ascii) : N := N_of_ascii c.

(** [str.isspace] on the ASCII range. *)
Definition is_space (c : ascii) : bool :=
  let n := code c in
  ((9 <=? n) && (n <=? 13) || (28 <=? n) && (n <=? 32))%N.

Definition is_digit (c : ascii) : bool :=
  let n := code c in ((48 <=? n) && (n <=? 57))%N.

Definition digit_val (c : ascii) : Z := Z.of_N (code c) - 48.

Fixpoint lstrip (s : string) : string :=
  match s with
  | String c r => if is_space c then lstrip r else s
  | EmptyString => EmptyString
  end.

Fixpoint rstrip (s : string) : string :=
  match s with
  | String c r =>
      match rstrip r with
      | EmptyString => if is_space c then EmptyString else String c EmptyString
      | r' => String c r'
      end
  | EmptyString => EmptyString
  end.

(** [s.strip()] *)
Definition strip (s : string) : string := rstrip (lstrip s).

Definition lower_ascii (c : ascii) : ascii :=
  let n := code c in
  if ((65 <=? n) && (n <=? 90))%N then ascii_of_N (n + 32) else c.

(** The second byte of a two-byte sequence led by 0xC3: U+00C0..U+00DE
    except the multiplication sign U+00D7 have a lower-case form 32 above. *)
Definition lower_latin1 (c : ascii) : ascii :=
  let n := code c in
  if ((128 <=? n) && (n <=? 158) && negb (n =? 151))%N
  then ascii_of_N (n + 32) else c.

Fixpoint lower_from (lead : bool) (s : string) : string :=
  match s with
  | String c r =>
      String (if lead then lower_latin1 c else lower_ascii c)
             (lower_from (code c =? 195)%N r)
  | EmptyString => EmptyString
  end.

(** [s.lower()] *)
Definition lower (s : string) : string := lower_from false s.

(** [needle in hay] *)
Fixpoint contains (needle hay : string) : bool :=
  String.prefix needle hay ||
  match hay with
  | String _ r => contains needle r
  | EmptyString => false
  end.

(** [s.split(sep)] for a one-character separator. *)
Fixpoint split_on (sep : ascii) (s : string) : list string :=
  match s with
  | EmptyString => [EmptyString]
  | String c r =>
      if Ascii.eqb c sep then EmptyString :: split_on sep r
      else match split_on sep r with
           | p :: ps => String c p :: ps
           | [] => [String c EmptyString]
           end
  end.

Fixpoint filter_chars (keep : ascii -> bool) (s : string) : string :=
  match s with
  | String c r =>
      if keep c then String c (filter_chars keep r) else filter_chars keep r
  | EmptyString => EmptyString
  end.

Fixpoint map_chars (f : ascii -> ascii) (s : string) : string :=
  match s with
  | String c r => String (f c) (map_chars f r)
  | EmptyString => EmptyString
  end.

Fixpoint all_chars (p : ascii -> bool) (s : string) : bool :=
  match s with
  | String c r => p c && all_chars p r
  | EmptyString => true
  end.

(** The value of a run of ASCII digits, most significant first. *)
Fixpoint digits_val (acc : Z) (s : string) : Z :=
  match s with
  | String c r => digits_val (10 * acc + digit_val c) r
  | EmptyString => acc
  end.

(** The digits accepted by [int]: non-empty groups of digits separated by
    single underscores. *)
Fixpoint int_body (after_digit : bool) (s : string) : option string :=
  match s with
  | EmptyString => if after_digit then Some EmptyString else None
  | String c r =>
      if is_digit c then String c <$> int_body true r
      else if Ascii.eqb c "_" && after_digit then
        match r with
        | String d _ => if is_digit d then int_body false r else None
        | EmptyString => None
        end
      else None
  end.

(** [int(s)] on text: surrounding whitespace, an optional sign, digits.
    [None] stands for [ValueError]. *)
Definition py_int (s : string) : option Z :=
  match strip s with
  | String "-" r => (fun d => - digits_val 0 d)%Z <$> int_body false r
  | String "+" r => digits_val 0 <$> int_body false r
  | t => digits_val 0 <$> int_body false t
  end.

(** ** Errors *)

Inductive excecao := OverflowError | TypeError.

Inductive res (A : Type) : Type :=
| Ok (a : A)
| Raise (e : excecao).
Arguments Ok {A} a.
Arguments Raise {A} e.

Global Instance res_ret : MRet res := fun A a => Ok a.
Global Instance res_bind : MBind res := fun A B f m =>
  match m with
  | Ok a => f a
  | Raise e => Raise e
  end.

(** A loop whose body may raise. *)
Fixpoint foldM {A B} (f : A -> B -> res A) (a : A) (l : list B) : res A :=
  match l with
  | [] => Ok a
  | x :: r => a' ← f a x; foldM f a' r
  end.

(** ** The percentage parser *)

(** The values a percentage field holds after JSON decoding: null, a
    number or text.  Booleans, lists and objects are outside the model. *)
Inductive pyval :=
| VNone
| VFloat (q : Qc)
| VInt (z : Z)
| VStr (s : string).

(** [not v] *)
Definition falsy (v : pyval) : bool :=
  match v with
  | VNone => true
  | VFloat q => bool_decide (q = 0)
  | VInt z => (z =? 0)%Z
  | VStr s => String.eqb s ""
  end.

(** [str(v)]; never called on a float by the parser. *)
Definition py_str (v : pyval) : string :=
  match v with
  | VNone => "None"
  | VFloat _ => ""
  | VInt z => pretty z
  | VStr s => s
  end.

Definition sentinelas : list string :=
  ["não informado"; "nao informado"; ""; "indeterminado"; "parcial"].

(** [re.sub(r'[^\d.,]', '', txt)] keeps digits, dots and commas. *)
Definition keep_numeric (c : ascii) : bool :=
  is_digit c || Ascii.eqb c "." || Ascii.eqb c ",".

Definition comma_to_dot (c : ascii) : ascii :=
  if Ascii.eqb c "," then "."%char else c.

Definition decimal (ip fp : string) : Qc :=
  Qc_of_Z (digits_val 0 (ip +:+ fp)) / Qc_of_Z (10 ^ Z.of_nat (String.length fp)).

(** [float(s)] for text made of digits and dots, the only text the parser
    hands to it: at most one dot and at least one digit, else [ValueError]
    ([None]). *)
Definition py_float (s : string) : option Qc :=
  if all_chars (fun c => is_digit c || Ascii.eqb c ".") s then
    match split_on "." s with
    | [ip] => if String.eqb ip "" then None else Some (decimal ip "")
    | [ip; fp] =>
        if String.eqb ip "" && String.eqb fp "" then None
        else Some (decimal ip fp)
    | _ => None
    end
  else None.

(** [float(Fraction(n, d))] raises [OverflowError] when the quotient rounds
    beyond the largest binary64 value, that is from 2^1024 - 2^970 on. *)
Definition float_overflows (n d : Z) : bool :=
  ((2 ^ 1024 - 2 ^ 970) * Z.abs d <=? Z.abs n)%Z.

Inductive aviso := PercentualInvalido (p : pyval).

(** [parse_percentual], with the warnings it logs.  A text that holds a
    slash splits into at least two parts, so the last case of the match on
    [split_on] is never taken. *)
Definition parse_percentual_log (percentual : pyval)
  : list aviso * res (option Qc) :=
  match percentual with
  | VFloat q => ([], Ok (Some q))
  | _ =>
    if falsy percentual
       || bool_decide (lower (strip (py_str percentual)) ∈ sentinelas)
    then ([], Ok None)
    else
      let invalido := ([PercentualInvalido percentual], Ok None) in
      let txt := strip (py_str percentual) in
      if contains "/" txt then
        match split_on "/" txt with
        | p0 :: p1 :: _ =>
            match py_int p0 with
            | None => invalido
            | Some n =>
                match py_int p1 with
                | None => invalido
                | Some d =>
                    if (d =? 0)%Z then invalido
                    else if float_overflows n d then ([], Raise OverflowError)
                    else ([], Ok (Some (Qc_of_Z n / Qc_of_Z d * 100)))
                end
            end
        | _ => invalido
        end
      else
        match py_float (map_chars comma_to_dot (filter_chars keep_numeric txt)) with
        | Some valor =>
            ([], Ok (Some (if decide (valor ≤ 1) then valor * 100 else valor)))
        | None => invalido
        end
  end.

Definition parse_percentual (percentual : pyval) : res (option Qc) :=
  (parse_percentual_log percentual).2.

(** [parse_percentual(x) or 100.0] *)
Definition or_100 (o : option Qc) : Qc :=
  match o with
  | Some q => if decide (q = 0) then 100 else q
  | None => 100
  end.

(** ** Dates *)

(** A [datetime] at midnight: [parse_data] never produces a time of day. *)
Record datetime := { ano : Z; mes : Z; dia : Z }.

Global Instance datetime_eq_dec : EqDecision datetime.
Proof. solve_decision. Defined.

(** The directives of the formats in [parse_data], with the regular
    expressions [_strptime] compiles them to:
    [%d] is [3[0-1]|[1-2]\d|0[1-9]|[1-9]| [1-9]],
    [%m] is [1[0-2]|0[1-9]|[1-9]] and [%Y] is [\d\d\d\d]. *)
Inductive item := Dd | Dm | DY | Lit (c : ascii).

(** A backtracking matcher lists its successes in the order the regular
    expression engine tries them. *)
Definition matcher := string -> list (Z * string).

Definition in_range (lo hi : ascii) (c : ascii) : bool :=
  ((code lo <=? code c) && (code c <=? code hi))%N.

Definition one_char (p : ascii -> bool) : matcher := fun s =>
  match s with
  | String a r => if p a then [(digit_val a, r)] else []
  | EmptyString => []
  end.

Definition two_chars (p1 p2 : ascii -> bool) : matcher := fun s =>
  match s with
  | String a (String b r) =>
      if p1 a && p2 b
      then [(digits_val 0 (filter_chars is_digit (String a (String b ""))), r)]
      else []
  | _ => []
  end.

Definition alt (ms : list matcher) : matcher := fun s =>
  m ← ms; m s.

Definition re_d : matcher :=
  alt [ two_chars (Ascii.eqb "3") (in_range "0" "1");
        two_chars (in_range "1" "2") is_digit;
        two_chars (Ascii.eqb "0") (in_range "1" "9");
        one_char (in_range "1" "9");
        two_chars (Ascii.eqb " ") (in_range "1" "9") ].

Definition re_m : matcher :=
  alt [ two_chars (Ascii.eqb "1") (in_range "0" "2");
        two_chars (Ascii.eqb "0") (in_range "1" "9");
        one_char (in_range "1" "9") ].

Definition re_Y : matcher := fun s =>
  match s with
  | String a (String b (String c (String d r))) =>
      if is_digit a && is_digit b && is_digit c && is_digit d
      then [(digits_val 0 (String a (String b (String c (String d "")))), r)]
      else []
  | _ => []
  end.

Fixpoint match_items (fmt : list item) (acc : datetime) (s : string)
  : list (datetime * string) :=
  match fmt with
  | [] => [(acc, s)]
  | Lit c :: fmt' =>
      match s with
      | String a r => if Ascii.eqb a c then match_items fmt' acc r else []
      | EmptyString => []
      end
  | Dd :: fmt' =>
      '(v, r) ← re_d s;
      match_items fmt' {| ano := ano acc; mes := mes acc; dia := v |} r
  | Dm :: fmt' =>
      '(v, r) ← re_m s;
      match_items fmt' {| ano := ano acc; mes := v; dia := dia acc |} r
  | DY :: fmt' =>
      '(v, r) ← re_Y s;
      match_items fmt' {| ano := v; mes := mes acc; dia := dia acc |} r
  end.

Definition is_leap (y : Z) : bool :=
  ((y mod 4 =? 0) && (negb (y mod 100 =? 0) || (y mod 400 =? 0)))%Z.

Definition days_in_month (y m : Z) : Z :=
  if (m =? 2)%Z then (if is_leap y then 29 else 28)%Z
  else if ((m =? 4) || (m =? 6) || (m =? 9) || (m =? 11))%Z then 30%Z
  else 31%Z.

Definition valid_date (d : datetime) : bool :=
  ((1 <=? ano d) && (ano d <=? 9999) && (1 <=? mes d) && (mes d <=? 12)
   && (1 <=? dia d) && (dia d <=? days_in_month (ano d) (mes d)))%Z.

(** [datetime.strptime(s, fmt)]: the first match of the format's regular
    expression must reach the end of the text and name a real calendar
    day, else [ValueError] ([None]). *)
Definition strptime (s : string) (fmt : list item) : option datetime :=
  match match_items fmt {| ano := 1900; mes := 1; dia := 1 |} s with
  | (d, EmptyString) :: _ => if valid_date d then Some d else None
  | _ => None
  end.

(** ["%d/%m/%Y", "%m/%d/%Y", "%Y-%m-%d", "%d%m%Y", "%Y/%m/%d"] *)
Definition formatos : list (list item) :=
  [ [Dd; Lit "/"; Dm; Lit "/"; DY];
    [Dm; Lit "/"; Dd; Lit "/"; DY];
    [DY; Lit "-"; Dm; Lit "-"; Dd];
    [Dd; Dm; DY];
    [DY; Lit "/"; Dm; Lit "/"; Dd] ].

Fixpoint first_format (s : string) (fmts : list (list item)) : datetime :=
  match fmts with
  | fmt :: rest =>
      match strptime s fmt with
      | Some d => d
      | None => first_format s rest
      end
  | [] => {| ano := 1900; mes := 1; dia := 1 |}
  end.

Definition parse_data (data_str : string) : datetime :=
  first_format (strip data_str) formatos.

Definition pad2 (n : Z) : string :=
  if (n <? 10)%Z then "0" +:+ pretty n else pretty n.

(** [d.strftime("%d/%m/%Y")]; the C library prints the year without
    padding. *)
Definition strftime (d : datetime) : string :=
  pad2 (dia d) +:+ "/" +:+ pad2 (mes d) +:+ "/" +:+ pretty (ano d).

(** The order of [datetime] values. *)
Definition datetime_le (a b : datetime) : bool :=
  ((ano a <? ano b) || (ano a =? ano b) &&
   ((mes a <? mes b) || (mes a =? mes b) && (dia a <=? dia b)))%Z.

(** ** Actions and holders *)

(** The ["Spouse"] entry of an agent or beneficiary when it is a dict. *)
Record SpouseDict := { sName : option string; sNome : option string; sCPF : option string }.

(** The ["Cônjuge"] entry of a ledger record; [None] is the empty dict. *)
Record Conjuge := { cNome : string; cCPF : string }.

(** An agent or a beneficiary of an action.  An absent ["Name"] or ["CPF"]
    is [None]; an absent percentage is [VStr ""], the default of [.get];
    [Spouse] is [None] when the entry is absent or not a dict. *)
Record Party := {
  Name : option string;
  CPF : option string;
  Percentage_Transferred : pyval;
  Percentage_Received : pyval;
  Spouse : option SpouseDict
}.

(** An action.  Absent text entries are the empty string, which the code
    does not tell apart from a missing key. *)
Record Acao := {
  Date : string;
  Data : string;
  Action : string;
  Tipo_da_Acao : string;
  Agents : list Party;
  Beneficiaries : list Party;
  Additional_Info : string
}.

Record Registro := {
  Nome : option string;
  rCPF : string;
  Percentual : Qc;
  Conjuge_r : option Conjuge
}.

Global Instance Conjuge_eq_dec : EqDecision Conjuge.
Proof. solve_decision. Defined.
Global Instance Registro_eq_dec : EqDecision Registro.
Proof. solve_decision. Defined.

(** [a or b] on text *)
Definition str_or (a : option string) (b : string) : string :=
  match a with
  | Some s => if String.eqb s "" then b else s
  | None => b
  end.

(** Upper-casing, NFKD decomposition, ASCII encoding and the filter
    [[^A-Z0-9 ]] of [normalizar_nome], on one ASCII byte. *)
Definition ascii_base (c : ascii) : string :=
  if in_range "a" "z" c then String (ascii_of_N (code c - 32)) ""
  else if in_range "A" "Z" c || is_digit c || Ascii.eqb c " " then String c ""
  else "".

(** The same on the second byte of a two-byte sequence led by 0xC3. *)
Definition latin1_base (c : ascii) : string :=
  let n := code c in
  if (n =? 159)%N then "SS"
  else if (n =? 191)%N then "Y"
  else
    let k := if (160 <=? n)%N then (n - 32)%N else n in
    if ((128 <=? k) && (k <=? 133))%N then "A"
    else if (k =? 135)%N then "C"
    else if ((136 <=? k) && (k <=? 139))%N then "E"
    else if ((140 <=? k) && (k <=? 143))%N then "I"
    else if (k =? 145)%N then "N"
    else if ((146 <=? k) && (k <=? 150))%N then "O"
    else if ((153 <=? k) && (k <=? 156))%N then "U"
    else if (k =? 157)%N then "Y"
    else "".

Fixpoint nome_from (lead : bool) (s : string) : string :=
  match s with
  | String c r =>
      (if lead then latin1_base c else ascii_base c)
        +:+ nome_from (code c =? 195)%N r
  | EmptyString => EmptyString
  end.

Definition normalizar_nome (nome : string) : string :=
  nome_from false (strip nome).

Definition processar_conjuge (conjuge : option SpouseDict) : option Conjuge :=
  match conjuge with
  | Some c =>
      Some {| cNome := str_or (sName c) (str_or (sNome c) "Não informado");
              cCPF := str_or (sCPF c) "Não informado" |}
  | None => None
  end.

Definition chave_proprietario (item : Party) : string :=
  match CPF item with
  | Some cpf =>
      if negb (String.eqb cpf "") && negb (String.eqb (strip cpf) "")
      then strip cpf
      else normalizar_nome (default "" (Name item))
  | None => normalizar_nome (default "" (Name item))
  end.

Definition obter_tipo_acao (acao : Acao) : string :=
  strip (str_or (Some (Action acao)) (str_or (Some (Tipo_da_Acao acao)) "")).

(** [acao.get("Date") or acao.get("Data", "")] *)
Definition data_de (acao : Acao) : string :=
  str_or (Some (Date acao)) (Data acao).

(** ** The action normalizer *)

(** [sorted(l, key=...)]: a stable sort, here by insertion. *)
Fixpoint insert_sorted {A} (le : A -> A -> bool) (x : A) (l : list A) : list A :=
  match l with
  | [] => [x]
  | y :: r => if le x y then x :: l else y :: insert_sorted le x r
  end.

Definition sorted {A} (le : A -> A -> bool) (l : list A) : list A :=
  foldr (insert_sorted le) [] l.

Definition nomes (ps : list Party) : list string :=
  sorted String.leb (map (fun a => default "" (Name a)) ps).

Definition chave_t : Type := string * string * list string * list string.

Definition chave_acao (acao : Acao) : chave_t :=
  (lower (obter_tipo_acao acao), data_de acao,
   nomes (Agents acao), nomes (Beneficiaries acao)).

Definition com_data (acao : Acao) (d : string) : Acao :=
  {| Date := d; Data := Data acao; Action := Action acao;
     Tipo_da_Acao := Tipo_da_Acao acao; Agents := Agents acao;
     Beneficiaries := Beneficiaries acao;
     Additional_Info := Additional_Info acao |}.

(** One turn of the deduplication loop: the set of keys seen and the
    actions kept so far. *)
Definition passo_unicas (st : gset chave_t * list Acao) (acao : Acao)
  : gset chave_t * list Acao :=
  let chave := chave_acao acao in
  if decide (chave ∈ st.1) then st
  else ({[chave]} ∪ st.1,
        (st.2 ++ [com_data acao (strftime (parse_data (data_de acao)))])%list).

Definition ordem_acao (x : Acao) : datetime * string :=
  (parse_data (data_de x), lower (obter_tipo_acao x)).

(** The order of the sort keys, pairs of a date and a type label. *)
Definition ordem_le (a b : datetime * string) : bool :=
  if decide (a.1 = b.1) then String.leb a.2 b.2 else datetime_le a.1 b.1.

Definition normalizar_e_ordenar_acoes (acoes : list Acao) : list Acao :=
  let acoes_unicas := (foldl passo_unicas (∅, []) acoes).2 in
  sorted (fun x y => ordem_le (ordem_acao x) (ordem_acao y)) acoes_unicas.

(** ** The ledger handlers *)

Global Instance res_fmap : FMap res := fun A B f m =>
  match m with
  | Ok a => Ok (f a)
  | Raise e => Raise e
  end.

(** [not l] on a list *)
Definition vazia {A} (l : list A) : bool :=
  match l with [] => true | _ :: _ => false end.

(** The pruning threshold [0.0001]. *)
Definition limiar : Qc := Q2Qc (1 # 10000).

Definition com_percentual (r : Registro) (q : Qc) : Registro :=
  {| Nome := Nome r; rCPF := rCPF r; Percentual := q; Conjuge_r := Conjuge_r r |}.

Definition com_conjuge (r : Registro) (c : option Conjuge) : Registro :=
  {| Nome := Nome r; rCPF := rCPF r; Percentual := Percentual r; Conjuge_r := c |}.

(** The record written for a holder that enters a ledger. *)
Definition novo_registro (item : Party) (q : Qc) : Registro :=
  {| Nome := Name item;
     rCPF := default "Não informado" (CPF item);
     Percentual := q;
     Conjuge_r := processar_conjuge (Spouse item) |}.

(** The credit that closes every handler: add to the holder's record, or
    create it. *)
Definition creditar (registro : gmap string Registro) (b : Party) (addition : Qc)
  : gmap string Registro :=
  let chave_b := chave_proprietario b in
  match registro !! chave_b with
  | Some r => <[chave_b := com_percentual r (Percentual r + addition)]> registro
  | None => <[chave_b := novo_registro b addition]> registro
  end.

(** Lines 127-133: the record of one agent of the first action. *)
Definition semear (q : Qc) (proprietarios : gmap string Registro)
    (agente : Party) : gmap string Registro :=
  <[chave_proprietario agente := novo_registro agente q]> proprietarios.

(** Lines 123-134: the first agents of an empty ledger share 100%. *)
Definition inicializar (proprietarios : gmap string Registro) (agentes : list Party)
  : gmap string Registro :=
  if bool_decide (proprietarios = ∅) && negb (vazia agentes) then
    foldl (semear (100 / Qc_of_Z (Z.of_nat (List.length agentes))))
          proprietarios agentes
  else proprietarios.

(** Lines 138-154: one agent of a transfer; the state is the ledger and
    [total_transferido]. *)
Definition debitar (st : gmap string Registro * Qc) (agente : Party)
  : res (gmap string Registro * Qc) :=
  let chave := chave_proprietario agente in
  frac ← parse_percentual (Percentage_Transferred agente);
  match frac with
  | None => Ok st
  | Some frac =>
      match st.1 !! chave with
      | Some r =>
          let current_share := Percentual r in
          let transfer_amount := current_share * (frac / 100) in
          let restante := current_share - transfer_amount in
          let p := <[chave := com_percentual r restante]> st.1 in
          Ok (if decide (restante < limiar) then delete chave p else p,
              st.2 + transfer_amount)
      | None => Ok st
      end
  end.

(** [benef_info]: each beneficiary with its parsed percentage. *)
Definition ler_beneficiarios (beneficiarios : list Party)
  : res (list (Party * option Qc)) :=
  mapM (fun b => pct ← parse_percentual (Percentage_Received b); Ok (b, pct))
       beneficiarios.

Definition total_declarado (info : list (Party * option Qc)) : Qc :=
  foldr (fun x acc => default 0 x.2 + acc) 0 info.

Definition nao_informados (info : list (Party * option Qc)) : nat :=
  List.length (filter (fun x => x.2 = None) info).

Definition nenhum_informado (info : list (Party * option Qc)) : bool :=
  forallb (fun x => bool_decide (x.2 = None)) info
  && negb (vazia info).

(** [max(0.0, x)] *)
Definition max0 (x : Qc) : Qc := if decide (0 < x) then x else 0.

(** The equal split of lines 167-170 and 284-287. *)
Definition partes_iguais (info : list (Party * option Qc))
  : list (Party * option Qc) :=
  map (fun x => (x.1, Some (100 / Qc_of_Z (Z.of_nat (List.length info))))) info.

(** Lines 182-192 and 291-300: what the declared and undeclared
    beneficiaries get out of [total]. *)
Definition repartir_declarados (total : Qc) (info : list (Party * option Qc))
  : list (Party * option Qc) :=
  let total_declared := total_declarado info in
  let remaining_percentage := max0 (total - total_declared) in
  let num_undefined_pct := nao_informados info in
  if decide (0 < num_undefined_pct)%nat then
    let addition_per_beneficiary :=
      remaining_percentage / Qc_of_Z (Z.of_nat num_undefined_pct) in
    map (fun x => (x.1, Some (default addition_per_beneficiary x.2))) info
  else if decide (total_declared < total) then
    map (fun x =>
           (x.1, (fun pct =>
                    pct + (if decide (0 < total_declared)
                           then remaining_percentage * (pct / total_declared)
                           else 0)) <$> x.2)) info
  else info.

(** Lines 166-193 of [atualizar_proprietarios_parcial]. *)
Definition repartir_transferencia (total_transferido : Qc)
    (info : list (Party * option Qc)) : list (Party * option Qc) :=
  if nenhum_informado info then partes_iguais info
  else
    repartir_declarados total_transferido
      (if decide (100 < total_declarado info)
       then map (fun x => (x.1, Some (default 0 x.2))) info
       else info).

(** Lines 284-300 of [processar_partilha]. *)
Definition repartir_partilha (total_removido : Qc)
    (info : list (Party * option Qc)) : list (Party * option Qc) :=
  if nenhum_informado info then partes_iguais info
  else repartir_declarados total_removido info.

(** The closing loop over [benef_info].  Adding [None] to a float would be
    a [TypeError]; [repartir_sem_None] shows the case never arises. *)
Definition creditar_todos (proprietarios : gmap string Registro)
    (info : list (Party * option Qc)) : res (gmap string Registro) :=
  foldM (fun p x =>
           match x.2 with
           | Some addition => Ok (creditar p x.1 addition)
           | None => Raise TypeError
           end) proprietarios info.

Definition atualizar_proprietarios_parcial (proprietarios : gmap string Registro)
    (agentes beneficiarios : list Party) : res (gmap string Registro) :=
  let proprietarios := inicializar proprietarios agentes in
  st ← foldM debitar (proprietarios, 0) agentes;
  benef_info ← ler_beneficiarios beneficiarios;
  creditar_todos st.1 (repartir_transferencia st.2 benef_info).

Definition processar_venda (proprietarios : gmap string Registro) (acao : Acao) :=
  atualizar_proprietarios_parcial proprietarios (Agents acao) (Beneficiaries acao).

Definition processar_doacao (proprietarios : gmap string Registro) (acao : Acao) :=
  atualizar_proprietarios_parcial proprietarios (Agents acao) (Beneficiaries acao).

(** [parse_percentual(b.get("Percentage_Received", "")) or 100.0] *)
Definition peso (b : Party) : res Qc :=
  or_100 <$> parse_percentual (Percentage_Received b).

(** [sum(... for b in beneficiarios)] over the weights. *)
Definition soma_pesos (beneficiarios : list Party) : res Qc :=
  foldM (fun acc b => frac ← peso b; Ok (acc + frac)) 0 beneficiarios.

(** Lines 232-253: one deceased agent. *)
Definition obito_agente (beneficiarios : list Party)
    (proprietarios : gmap string Registro) (agente : Party)
  : res (gmap string Registro) :=
  let chave := chave_proprietario agente in
  match proprietarios !! chave with
  | Some r =>
      let share := Percentual r in
      let proprietarios := delete chave proprietarios in
      total_frac ← soma_pesos beneficiarios;
      foldM (fun p b =>
               frac ← peso b;
               let addition :=
                 if decide (0 < total_frac) then share * (frac / total_frac)
                 else share in
               Ok (creditar p b addition))
            proprietarios beneficiarios
  | None => Ok proprietarios
  end.

Definition processar_obito (proprietarios : gmap string Registro) (acao : Acao)
  : res (gmap string Registro) :=
  foldM (obito_agente (Beneficiaries acao)) proprietarios (Agents acao).

(** Lines 268-274: one agent of a partition; the state is the ledger and
    [total_removido]. *)
Definition remover_agente (st : gmap string Registro * Qc) (agente : Party)
  : gmap string Registro * Qc :=
  let chave := chave_proprietario agente in
  match st.1 !! chave with
  | Some r => (delete chave st.1, st.2 + Percentual r)
  | None => st
  end.

Definition processar_partilha (proprietarios : gmap string Registro) (acao : Acao)
  : res (gmap string Registro) :=
  let st := foldl remover_agente (proprietarios, 0) (Agents acao) in
  benef_info ← ler_beneficiarios (Beneficiaries acao);
  creditar_todos st.1 (repartir_partilha st.2 benef_info).

Definition processar_usufruto (usufrutuarios : gmap string Registro) (acao : Acao)
  : res (gmap string Registro) :=
  foldM (fun u b => perc ← peso b; Ok (creditar u b perc))
        usufrutuarios (Beneficiaries acao).

Definition processar_alteracao_estado_civil (proprietarios : gmap string Registro)
    (acao : Acao) : gmap string Registro :=
  foldl (fun p agente =>
           let chave := chave_proprietario agente in
           let novo_conjuge := processar_conjuge (Spouse agente) in
           match p !! chave with
           | Some r =>
               match Conjuge_r r with
               | None => <[chave := com_conjuge r novo_conjuge]> p
               | Some _ => p
               end
           | None =>
               <[chave := {| Nome := Name agente;
                             rCPF := default "Não informado" (CPF agente);
                             Percentual := 0;
                             Conjuge_r := novo_conjuge |}]> p
           end) proprietarios (Agents acao).

(** ** The dispatcher *)

(** Line 461: only records above the threshold survive an action. *)
Definition podar (proprietarios : gmap string Registro) : gmap string Registro :=
  filter (fun kv => limiar < Percentual kv.2) proprietarios.

(** The two ledgers: bare ownership and usufruct. *)
Definition estado : Type := gmap string Registro * gmap string Registro.

(** One turn of the loop of [processar_acoes] (lines 431-461).  The
    ignored categories [continue] past the pruning. *)
Definition processar_acao (st : estado) (acao : Acao) : res estado :=
  let tipo := lower (obter_tipo_acao acao) in
  let fim (r : res estado) : res estado := st' ← r; Ok (podar st'.1, st'.2) in
  if contains "alteração do estado civil e nome" tipo then
    fim (Ok (processar_alteracao_estado_civil st.1 acao, st.2))
  else if existsb (fun x => contains x tipo) ["alteração nome"; "casamento"] then
    Ok st
  else if contains "venda" tipo || contains "sale" tipo
          || contains "venda nua propriedade" tipo then
    fim (p ← processar_venda st.1 acao; Ok (p, st.2))
  else if contains "doação" tipo || contains "donation" tipo then
    fim (p ← processar_doacao st.1 acao;
         if contains "usufruto" tipo
            || contains "reserva" (lower (Additional_Info acao))
         then u ← processar_usufruto st.2 acao; Ok (p, u)
         else Ok (p, st.2))
  else if contains "óbito" tipo || contains "falecimento" tipo
          || contains "death" tipo then
    fim (p ← processar_obito st.1 acao; Ok (p, st.2))
  else if contains "partilha" tipo || contains "share" tipo then
    fim (p ← processar_partilha st.1 acao; Ok (p, st.2))
  else if contains "usufruto" tipo || contains "usufruct" tipo then
    fim (u ← processar_usufruto st.2 acao; Ok (st.1, u))
  else if contains "cancelamento de usufruto" tipo then
    fim (Ok st)
  else fim (Ok st).

(** The ledgers after the whole loop, from the empty ledgers. *)
Definition processar_lista (lista_acoes : list Acao) : res estado :=
  foldM processar_acao (∅, ∅) (normalizar_e_ordenar_acoes lista_acoes).

(** [processar_acoes] up to the formatting of the percentages: the current
    owners, and the usufruct holders that are not owners. *)
Definition processar_acoes (lista_acoes : list Acao) : res estado :=
  st ← processar_lista lista_acoes;
  Ok (st.1, filter (fun kv => st.1 !! kv.1 = None) st.2).

(** ** Observations and specification-side definitions *)

(** The sum of the percentages of a ledger. *)
Definition total (registro : gmap string Registro) : Qc :=
  map_fold (fun _ r acc => Percentual r + acc) 0 registro.

(** The percentage recorded for a holder, if the run did not raise. *)
Definition percentual_em (r : res (gmap string Registro)) (chave : string)
  : option Q :=
  match r with
  | Ok registro => (fun x => this (Percentual x)) <$> registro !! chave
  | Raise _ => None
  end.

(** The sum of a list of percentages. *)
Definition soma (ws : list Qc) : Qc := foldr Qcplus 0 ws.



Definition soma_creditos (info : list (Party * option Qc)) : Qc :=
  total_declarado info.



(** Text made of ASCII digits only. *)
Definition digitos (s : string) : Prop := all_chars is_digit s = true.

(** The characters of plain numbers and fractions. *)
Definition numerico (c : ascii) : bool :=
  is_digit c || Ascii.eqb c "." || Ascii.eqb c "," || Ascii.eqb c "/".

(** An action whose date is already the canonical day/month/year text. *)
Definition data_canonica (acao : Acao) : Prop :=
  Date acao = strftime (parse_data (Date acao)).

(** Two neighbours of a list sorted by (parsed date, lower-cased label). *)
Definition em_ordem (x y : Acao) : Prop :=
  ordem_le (ordem_acao x) (ordem_acao y) = true.

(** The invariant of the bare-ownership ledger between actions. *)
Definition acima_do_limiar (p : gmap string Registro) : Prop :=
  forall k r, p !! k = Some r -> limiar < Percentual r.

(** What the bootstrap rule of the specification asks of any handler: seed
    the empty ledger with the agents, then run the handler. *)
Definition com_inicializacao
    (handler : gmap string Registro -> Acao -> res (gmap string Registro))
    (proprietarios : gmap string Registro) (acao : Acao)
  : res (gmap string Registro) :=
  handler (inicializar proprietarios (Agents acao)) acao.

(** ** Sample data *)

Definition parte (nome transferido recebido : string) : Party :=
  {| Name := Some nome; CPF := None;
     Percentage_Transferred := VStr transferido;
     Percentage_Received := VStr recebido; Spouse := None |}.

Definition acao_de (data tipo : string) (agentes beneficiarios : list Party)
  : Acao :=
  {| Date := data; Data := ""; Action := tipo; Tipo_da_Acao := "";
     Agents := agentes; Beneficiaries := beneficiarios;
     Additional_Info := "" |}.

(** A ledger where A holds 100%. *)
Definition dono_unico : gmap string Registro :=
  {[ "A" := novo_registro (parte "A" "" "") 100 ]}.

(** The text of 10^400, a slash and 1. *)
Definition fracao_enorme : string :=
  "1" +:+ String.concat "" (replicate 400 "0") +:+ "/1".




(** Two sales of the same day written in two formats, and a list that is
    already normalized. *)
Definition datas_iguais_ex : list Acao :=
  [acao_de "01/02/2020" "Venda" [] []; acao_de "2020-02-01" "Venda" [] []].

Definition ja_normalizada_ex : list Acao :=
  [acao_de "01/01/2019" "Doação" [] []; acao_de "01/02/2020" "Venda" [] []].


Definition venda_quase_tudo_ex : Acao :=
  acao_de "01/01/2020" "Venda" [parte "A" "99.99995" ""] [parte "X" "" "99.99995"].

Definition venda_metade_ex : Acao :=
  acao_de "01/01/2020" "Venda" [parte "A" "50" ""] [parte "X" "" ""].

Definition cancelamento_ex : Acao :=
  acao_de "01/01/2020" "Cancelamento de Usufruto" [] [parte "X" "" ""].

Definition obito_primeiro_ex : Acao :=
  acao_de "01/01/2020" "Óbito" [parte "A" "" ""] [parte "B" "" ""].

Definition partilha_primeira_ex : Acao :=
  acao_de "01/01/2020" "Partilha" [parte "A" "" ""] [parte "B" "" "50"].

Definition obito_sem_herdeiros_ex : Acao :=
  acao_de "01/01/2020" "Óbito" [parte "A" "" ""] [].




(** ** Further observations *)

(** The date [parse_data] falls back on when no format reads the text
    (line 40). *)
Definition sentinela_data : datetime := {| ano := 1900; mes := 1; dia := 1 |}.

(** What reading back a written year needs: the pattern of [%Y] takes the
    whole text and gives the year, and the text holds digits only. *)
Definition ano_legivel (y : Z) : bool :=
  bool_decide (re_Y (pretty y) = [(y, "")]) && all_chars is_digit (pretty y).

(** The action as the deduplication loop stores it (lines 101-103): the
    same action with its date rewritten as day/month/year. *)
Definition canonizar (acao : Acao) : Acao :=
  com_data acao (strftime (parse_data (data_de acao))).

(** One turn of the loop of [processar_alteracao_estado_civil]
    (lines 350-364). *)
Definition anotar_conjuge (p : gmap string Registro) (agente : Party)
  : gmap string Registro :=
  let chave := chave_proprietario agente in
  let novo_conjuge := processar_conjuge (Spouse agente) in
  match p !! chave with
  | Some r =>
      match Conjuge_r r with
      | None => <[chave := com_conjuge r novo_conjuge]> p
      | Some _ => p
      end
  | None =>
      <[chave := {| Nome := Name agente;
                    rCPF := default "Não informado" (CPF agente);
                    Percentual := 0;
                    Conjuge_r := novo_conjuge |}]> p
  end.

(** What a marital-status action may do to a ledger: keep every record
    with its name, tax id and percentage, keep a spouse that is already
    there, and add records at 0%. *)
Definition so_conjuges (p p' : gmap string Registro) : Prop :=
  (forall k r, p !! k = Some r ->
     exists r', p' !! k = Some r'
       /\ Nome r' = Nome r /\ rCPF r' = rCPF r /\ Percentual r' = Percentual r
       /\ (Conjuge_r r <> None -> r' = r))
  /\ (forall k r', p' !! k = Some r' -> p !! k = None -> Percentual r' = 0).

(** Every word the dispatcher looks for in a type label (lines 437-455),
    the cancellation and the bare-ownership sale apart: these two contain
    ["usufruto"] and ["venda"]. *)
Definition palavras_chave : list string :=
  ["alteração do estado civil e nome"; "alteração nome"; "casamento";
   "venda"; "sale"; "doação"; "donation"; "óbito"; "falecimento"; "death";
   "partilha"; "share"; "usufruto"; "usufruct"].





(** ** Further sample data *)

Definition bissexto_ex : datetime := {| ano := 2020; mes := 2; dia := 29 |}.

(** A ledger where A and B hold 50% each. *)
Definition dois_donos : gmap string Registro :=
  {[ "A" := novo_registro (parte "A" "" "") (Qc_of_Z 50);
     "B" := novo_registro (parte "B" "" "") (Qc_of_Z 50) ]}.

(** An agent without a percentage and an agent who holds nothing. *)
Definition agentes_ignorados_ex : list Party :=
  [parte "A" "" ""; parte "Z" "50" ""].

Definition venda_repartida_ex : Acao :=
  acao_de "01/01/2020" "Venda" [parte "A" "50" ""]
          [parte "X" "" "30"; parte "Y" "" ""].

Definition obito_desconhecido_ex : Acao :=
  acao_de "01/01/2020" "Óbito" [parte "Z" "" ""] [parte "X" "" ""].

Definition usufruto_ex : Acao :=
  acao_de "01/01/2020" "Usufruto" [] [parte "X" "" "40"; parte "Y" "" ""].

Definition casada_ex : Party :=
  {| Name := Some "A"; CPF := None;
     Percentage_Transferred := VStr ""; Percentage_Received := VStr "";
     Spouse := Some {| sName := Some "C"; sNome := None; sCPF := None |} |}.

Definition estado_civil_ex : Acao :=
  acao_de "01/01/2020" "Alteração do estado civil e nome" [casada_ex] [].

Definition casamento_ex : Acao :=
  acao_de "01/01/2020" "Casamento" [casada_ex] [].

Definition averbacao_ex : Acao :=
  acao_de "01/01/2020" "Averbação" [parte "A" "50" ""] [parte "X" "" ""].



(** * Proofs *)

(** ** Ledger totals *)

Lemma Qc_this_inj (a b : Qc) : this a = this b -> a = b.
Proof. intros H. apply Qc_is_canon. rewrite H. reflexivity. Qed.

Section Total.
Implicit Types (p : gmap string Registro) (r : Registro) (k : string).

Lemma total_insert p k r :
  p !! k = None -> total (<[k:=r]> p) = Percentual r + total p.
Proof.
  intros Hk. unfold total.
  apply (map_fold_insert_L (fun _ x acc => Percentual x + acc)); [|done].
  intros. ring.
Qed.

Lemma total_delete p k r :
  p !! k = Some r -> total p = Percentual r + total (delete k p).
Proof.
  intros Hk. rewrite <- (insert_delete_id p k r) at 1 by done.
  apply total_insert, lookup_delete_eq.
Qed.

Lemma total_empty : total ∅ = 0.
Proof. unfold total. apply map_fold_empty. Qed.

Lemma total_creditar p b q : total (creditar p b q) = total p + q.
Proof.
  unfold creditar. destruct (p !! chave_proprietario b) as [r|] eqn:Hk.
  - rewrite <- insert_delete_eq, total_insert by apply lookup_delete_eq.
    rewrite (total_delete p _ r Hk). simpl. ring.
  - rewrite total_insert by done. simpl. ring.
Qed.
Lemma total_filter_split (P : string * Registro -> Prop)
    `{!forall kv, Decision (P kv)} p :
  total p = total (filter P p) + total (filter (fun kv => ~ P kv) p).
Proof.
  induction p as [|k r p Hk _ IH] using map_first_key_ind.
  - rewrite !map_filter_empty, total_empty. ring.
  - rewrite total_insert by done.
    destruct (decide (P (k, r))) as [HP|HP].
    + rewrite (map_filter_insert_True P) by done.
      rewrite (map_filter_insert_False (fun kv => ~ P kv)) by (simpl; tauto).
      rewrite total_insert by (by rewrite map_lookup_filter_None; left).
      rewrite delete_id by done. rewrite IH. ring.
    + rewrite (map_filter_insert_False P) by done.
      rewrite (map_filter_insert_True (fun kv => ~ P kv)) by done.
      rewrite total_insert by (by rewrite map_lookup_filter_None; left).
      rewrite delete_id by done. rewrite IH. ring.
Qed.
End Total.

(** ** Death and succession *)

Section Obito.
Implicit Types (p : gmap string Registro) (r : Registro) (k : string).
Implicit Types (bs : list Party) (ws : list Qc).

Lemma obito_agente_sem_beneficiarios p a :
  obito_agente [] p a = Ok (delete (chave_proprietario a) p).
Proof.
  unfold obito_agente. destruct (p !! chave_proprietario a) eqn:Hk; simpl.
  - done.
  - by rewrite delete_id.
Qed.

Lemma lookup_foldl_delete (ks : list string) p k :
  foldl (fun q j => delete j q) p ks !! k
  = if decide (k ∈ ks) then None else p !! k.
Proof.
  revert p. induction ks as [|j ks IH]; intros p.
  - case_decide as H; [by apply elem_of_nil in H | done].
  - cbn [foldl]. rewrite IH.
    destruct (decide (k ∈ j :: ks)) as [Hc|Hc]; rewrite elem_of_cons in Hc;
      destruct (decide (k ∈ ks)) as [Hin|Hin]; try done; try tauto.
    + destruct Hc as [->|Hc]; [apply lookup_delete_eq | tauto].
    + apply lookup_delete_ne. intros ->. tauto.
Qed.

Lemma processar_obito_sem_beneficiarios p acao :
  Beneficiaries acao = [] ->
  processar_obito p acao
  = Ok (foldl (fun q j => delete j q) p (map chave_proprietario (Agents acao))).
Proof.
  intros Hb. unfold processar_obito. rewrite Hb.
  generalize (Agents acao) as ags. intros ags. revert p.
  induction ags as [|a ags IH]; intros p; simpl; [done|].
  rewrite obito_agente_sem_beneficiarios. simpl. apply IH.
Qed.


Lemma creditos_por_peso (f : Qc -> Qc) bs ws p :
  Forall2 (fun b w => peso b = Ok w) bs ws ->
  foldM (fun q b => frac ← peso b; Ok (creditar q b (f frac))) p bs
  = Ok (foldl (fun q bw => creditar q bw.1 (f bw.2)) p (zip bs ws)).
Proof.
  intros H. revert p. induction H as [|b w bs ws Hb _ IH]; intros p; simpl.
  - done.
  - rewrite Hb. simpl. apply IH.
Qed.

Lemma total_creditos (f : Qc -> Qc) (l : list (Party * Qc)) p :
  total (foldl (fun q bw => creditar q bw.1 (f bw.2)) p l)
  = total p + soma (map (fun bw => f bw.2) l).
Proof.
  revert p. induction l as [|bw l IH]; intros p; simpl.
  - ring.
  - rewrite IH, total_creditar. ring.
Qed.

Lemma lookup_creditar_ne p b q k :
  k ≠ chave_proprietario b -> creditar p b q !! k = p !! k.
Proof.
  intros Hne. unfold creditar.
  destruct (p !! chave_proprietario b); by rewrite lookup_insert_ne.
Qed.

Lemma lookup_creditos (f : Qc -> Qc) (l : list (Party * Qc)) p k :
  k ∉ map (fun bw => chave_proprietario bw.1) l ->
  foldl (fun q bw => creditar q bw.1 (f bw.2)) p l !! k = p !! k.
Proof.
  revert p. induction l as [|bw l IH]; intros p Hk; simpl; [done|].
  simpl in Hk. rewrite not_elem_of_cons in Hk. destruct Hk as [Hne Hk].
  rewrite IH by done. by apply lookup_creditar_ne.
Qed.



Lemma map_zip_snd (f : Qc -> Qc) bs ws :
  List.length bs = List.length ws ->
  map (fun bw : Party * Qc => f bw.2) (zip bs ws) = map f ws.
Proof.
  revert ws. induction bs as [|b bs IH]; intros [|w ws] Hl; simpl in *; try done.
  f_equal. apply IH. lia.
Qed.

Lemma map_zip_fst {A} (g : Party -> A) bs ws :
  List.length bs = List.length ws ->
  map (fun bw : Party * Qc => g bw.1) (zip bs ws) = map g bs.
Proof.
  revert ws. induction bs as [|b bs IH]; intros [|w ws] Hl; simpl in *; try done.
  f_equal. apply IH. lia.
Qed.



End Obito.

(** C10.  A death action without beneficiaries removes every listed
    deceased present in the ledger and credits nobody: the other records
    are unchanged, and the total of the ledger drops by exactly the shares
    removed, one deceased at a time by exactly that deceased's share. *)
Theorem obito_sem_herdeiros (p : gmap string Registro) (acao : Acao) :
  Beneficiaries acao = [] ->
  exists p', processar_obito p acao = Ok p'
    /\ (forall k, k ∈ map chave_proprietario (Agents acao) -> p' !! k = None)
    /\ (forall k, k ∉ map chave_proprietario (Agents acao) -> p' !! k = p !! k)
    /\ total p
       = total p'
         + total (filter (fun kv => kv.1 ∈ map chave_proprietario (Agents acao)) p)
    /\ (forall q a r, q !! chave_proprietario a = Some r ->
          obito_agente (Beneficiaries acao) q a
          = Ok (delete (chave_proprietario a) q)
          /\ total (delete (chave_proprietario a) q) = total q - Percentual r).
Proof.
  intros Hb. eexists. split; [by apply processar_obito_sem_beneficiarios|].
  set (ks := map chave_proprietario (Agents acao)).
  assert (Hl : forall k, foldl (fun q j => delete j q) p ks !! k
                         = if decide (k ∈ ks) then None else p !! k)
    by apply lookup_foldl_delete.
  split; [|split; [|split]].
  - intros k Hk. rewrite Hl. by rewrite decide_True.
  - intros k Hk. rewrite Hl. by rewrite decide_False.
  - rewrite (total_filter_split (fun kv => kv.1 ∈ ks) p).
    rewrite Qcplus_comm. f_equal. f_equal. apply map_eq. intros k.
    rewrite Hl. destruct (decide (k ∈ ks)) as [Hin|Hin].
    + apply map_lookup_filter_None. right. intros x _ Hx. by apply Hx.
    + destruct (p !! k) as [x|] eqn:Hk.
      * by apply map_lookup_filter_Some.
      * apply map_lookup_filter_None. by left.
  - intros q a r Hk. rewrite Hb. split; [apply obito_agente_sem_beneficiarios|].
    rewrite (total_delete q _ r Hk). ring.
Qed.

Lemma obito_sem_herdeiros_witness :
  exists p', processar_obito dono_unico obito_sem_herdeiros_ex = Ok p'
    /\ (forall k, k ∈ map chave_proprietario (Agents obito_sem_herdeiros_ex) ->
          p' !! k = None)
    /\ (forall k, k ∉ map chave_proprietario (Agents obito_sem_herdeiros_ex) ->
          p' !! k = dono_unico !! k)
    /\ total dono_unico
       = total p'
         + total (filter (fun kv => kv.1 ∈ map chave_proprietario
                                             (Agents obito_sem_herdeiros_ex))
                         dono_unico)
    /\ (forall q a r, q !! chave_proprietario a = Some r ->
          obito_agente (Beneficiaries obito_sem_herdeiros_ex) q a
          = Ok (delete (chave_proprietario a) q)
          /\ total (delete (chave_proprietario a) q) = total q - Percentual r).
Proof. apply (obito_sem_herdeiros dono_unico obito_sem_herdeiros_ex). reflexivity. Defined.




(** ** The first action on an empty ledger *)

Section Inicializar.
Implicit Types (p : gmap string Registro) (r : Registro) (k : string).

Lemma semear_agentes q (l : list Party) p a :
  a ∈ l ->
  exists r, foldl (semear q) p l !! chave_proprietario a = Some r
            /\ Percentual r = q.
Proof.
  revert p. induction l as [|x l IH] using rev_ind; intros p Ha.
  - by apply elem_of_nil in Ha.
  - rewrite foldl_app. cbn [foldl]. unfold semear at 1.
    destruct (decide (chave_proprietario x = chave_proprietario a)) as [He|Hne].
    + rewrite He, lookup_insert_eq. by eexists.
    + rewrite lookup_insert_ne by done. apply IH.
      apply elem_of_app in Ha as [Ha|Ha]; [done|].
      apply list_elem_of_singleton in Ha. by subst.
Qed.

Lemma semear_chaves q (l : list Party) p k r :
  foldl (semear q) p l !! k = Some r ->
  p !! k = Some r \/ exists a, a ∈ l /\ k = chave_proprietario a /\ Percentual r = q.
Proof.
  revert p. induction l as [|x l IH] using rev_ind; intros p.
  - by left.
  - rewrite foldl_app. cbn [foldl]. unfold semear at 1.
    destruct (decide (chave_proprietario x = k)) as [He|Hne].
    + subst k. rewrite lookup_insert_eq. intros [= <-]. right.
      exists x. split; [|done]. apply elem_of_app. right. by left.
    + rewrite lookup_insert_ne by done. intros H. apply IH in H as [H|(a & Ha & Hk)].
      * by left.
      * right. exists a. split; [|done]. apply elem_of_app. by left.
Qed.

Lemma inicializar_vazio (agentes : list Party) :
  agentes ≠ [] ->
  inicializar ∅ agentes
  = foldl (semear (100 / Qc_of_Z (Z.of_nat (List.length agentes)))) ∅ agentes.
Proof. intros Hne. unfold inicializar. by destruct agentes. Qed.

Lemma inicializar_nao_vazio p (agentes : list Party) :
  p ≠ ∅ -> inicializar p agentes = p.
Proof.
  intros Hne. unfold inicializar. by rewrite bool_decide_eq_false_2.
Qed.
End Inicializar.

(** C4, as the code has it.  A transfer (sale or donation) with agents,
    applied to the empty ledger, first writes one record per agent key with
    100/N percent, N the number of agents listed, and then runs the
    transfer on that ledger.  Death and partition have no such step. *)
Theorem transferencia_inicializa (agentes beneficiarios : list Party) :
  agentes ≠ [] ->
  (forall a, a ∈ agentes ->
     exists r, inicializar ∅ agentes !! chave_proprietario a = Some r
       /\ Percentual r = 100 / Qc_of_Z (Z.of_nat (List.length agentes)))
  /\ (forall k r, inicializar ∅ agentes !! k = Some r ->
        exists a, a ∈ agentes /\ k = chave_proprietario a)
  /\ atualizar_proprietarios_parcial ∅ agentes beneficiarios
     = atualizar_proprietarios_parcial (inicializar ∅ agentes) agentes beneficiarios.
Proof.
  intros Hne. split; [|split].
  - intros a Ha. rewrite inicializar_vazio by done. by apply semear_agentes.
  - intros k r. rewrite inicializar_vazio by done. intros H.
    apply semear_chaves in H as [H|(a & Ha & Hk & _)]; [done | by exists a].
  - unfold atualizar_proprietarios_parcial.
    rewrite (inicializar_nao_vazio (inicializar ∅ agentes)); [done|].
    destruct agentes as [|a l]; [done|].
    destruct (semear_agentes (100 / Qc_of_Z (Z.of_nat (List.length (a :: l))))
                (a :: l) ∅ a) as (r & Hr & _); [by left|].
    rewrite inicializar_vazio by done. intros H0. by rewrite H0 in Hr.
Qed.

Lemma transferencia_inicializa_witness :
  (forall a, a ∈ Agents venda_metade_ex ->
     exists r, inicializar ∅ (Agents venda_metade_ex) !! chave_proprietario a = Some r
       /\ Percentual r
          = 100 / Qc_of_Z (Z.of_nat (List.length (Agents venda_metade_ex))))
  /\ (forall k r, inicializar ∅ (Agents venda_metade_ex) !! k = Some r ->
        exists a, a ∈ Agents venda_metade_ex /\ k = chave_proprietario a)
  /\ atualizar_proprietarios_parcial ∅ (Agents venda_metade_ex)
       (Beneficiaries venda_metade_ex)
     = atualizar_proprietarios_parcial (inicializar ∅ (Agents venda_metade_ex))
         (Agents venda_metade_ex) (Beneficiaries venda_metade_ex).
Proof.
  apply (transferencia_inicializa (Agents venda_metade_ex)
           (Beneficiaries venda_metade_ex)).
  simpl. discriminate.
Defined.

(** C4 fails for death and partition: on the empty ledger the deceased or
    partitioning agent A is never given 100%, so a death leaves the ledger
    empty and a partition credits B its declared 50 only, where seeding
    first would have passed the whole 100% on to B. *)
Lemma obito_e_partilha_nao_inicializam :
  (processar_acao (∅, ∅) obito_primeiro_ex = Ok (∅, ∅)
   /\ percentual_em (com_inicializacao processar_obito ∅ obito_primeiro_ex) "B"
      = Some 100%Q)
  /\ (percentual_em (processar_partilha ∅ partilha_primeira_ex) "B" = Some 50%Q
      /\ percentual_em (com_inicializacao processar_partilha ∅ partilha_primeira_ex) "B"
         = Some 100%Q).
Proof. vm_compute. repeat split. Qed.

(** ** Evaluations at the inputs where the code departs from the claims *)

(** C1 at its own scenario: A holds 100% and sells 50% to X, who declares
    nothing.  A is left with 50, but X is credited 100/1 = 100 instead of
    the 50 debited, and the ledger adds up to 150. *)
Theorem venda_sem_percentual_credita_cem :
  percentual_em (processar_venda dono_unico venda_metade_ex) "A" = Some 50%Q
  /\ percentual_em (processar_venda dono_unico venda_metade_ex) "X" = Some 100%Q
  /\ (total <$> processar_venda dono_unico venda_metade_ex)
     = Ok (Qc_of_Z 150).
Proof.
  split; [|split]; [vm_compute; reflexivity ..|].
  destruct (processar_venda dono_unico venda_metade_ex) as [m|e] eqn:E;
    [|vm_compute in E; discriminate].
  cbn. f_equal. apply Qc_this_inj.
  assert (H : (fun r => match r with Ok m => this (total m) | Raise _ => 0%Q end)
                (processar_venda dono_unico venda_metade_ex) = 150%Q)
    by (vm_compute; reflexivity).
  by rewrite E in H.
Qed.

(** C5 at a cancellation: the label contains "usufruto", so the grant
    branch runs first and X enters the usufruct ledger with 100%. *)
Theorem cancelamento_concede_usufruto :
  exists st, processar_acao (dono_unico, ∅) cancelamento_ex = Ok st
    /\ percentual_em (Ok st.2) "X" = Some 100%Q
    /\ percentual_em (Ok (∅ : gmap string Registro)) "X" = None.
Proof. eexists. split; [vm_compute; reflexivity|]. split; vm_compute; reflexivity. Qed.

(** C7 at 10^400/1: both integers parse, the quotient is too large for a
    float, and the [OverflowError] is not among the exceptions caught.
    Text that is no number and a zero denominator do give the unknown
    marker with a warning. *)
Theorem parse_percentual_overflow :
  parse_percentual_log (VStr fracao_enorme) = ([], Raise OverflowError)
  /\ parse_percentual_log (VStr "abc") = ([PercentualInvalido (VStr "abc")], Ok None)
  /\ parse_percentual_log (VStr "1/0") = ([PercentualInvalido (VStr "1/0")], Ok None).
Proof. vm_compute. repeat split. Qed.

(** ** Pruning *)

Section Poda.
Implicit Types (p : gmap string Registro) (r : Registro) (k : string).

Lemma lookup_podar p k r :
  podar p !! k = Some r <-> p !! k = Some r /\ limiar < Percentual r.
Proof. unfold podar. apply (map_lookup_filter_Some (fun kv => limiar < Percentual kv.2)). Qed.

Lemma podar_acima p : acima_do_limiar (podar p).
Proof. intros k r H. by apply lookup_podar in H as [_ H]. Qed.

Lemma fim_acima (x : res estado) (st : estado) :
  (st' ← x; Ok (podar st'.1, st'.2)) = Ok st -> acima_do_limiar st.1.
Proof.
  destruct x as [st'|e]; [|done]. cbn. intros [= <-]. apply podar_acima.
Qed.

Lemma processar_acao_acima (st st' : estado) acao :
  acima_do_limiar st.1 ->
  processar_acao st acao = Ok st' ->
  acima_do_limiar st'.1.
Proof.
  intros Hinv. unfold processar_acao.
  repeat match goal with
         | |- context [if ?b then _ else _] => destruct b
         end;
    first [ by intros [= <-] | apply fim_acima ].
Qed.

Lemma processar_prefixo_acima (l : list Acao) (st st' : estado) :
  acima_do_limiar st.1 ->
  foldM processar_acao st l = Ok st' ->
  acima_do_limiar st'.1.
Proof.
  revert st. induction l as [|a l IH]; intros st Hinv; cbn [foldM].
  - by intros [= <-].
  - destruct (processar_acao st a) as [st1|e] eqn:E; [|done]. cbn.
    apply IH. by eapply processar_acao_acima.
Qed.

Lemma limiar_positivo : 0 < limiar.
Proof. reflexivity. Qed.
End Poda.




(** The scenario of C9: A sells 99.99995% of its 100%; the 0.00005 left is
    below the threshold and A is gone after the action. *)
Lemma venda_resto_infimo_podado :
  exists st, processar_acao (dono_unico, ∅) venda_quase_tudo_ex = Ok st
    /\ st.1 !! "A" = None
    /\ percentual_em (Ok st.1) "X" = Some (1999999 # 20000)%Q.
Proof. eexists. split; [vm_compute; reflexivity|]. split; vm_compute; reflexivity. Qed.


(** ** The distribution among beneficiaries *)

Section Repartir.
Implicit Types (info : list (Party * option Qc)) (t : Qc).

Lemma Qc_of_Z_nat_ne_0 (n : nat) : (0 < n)%nat -> Qc_of_Z (Z.of_nat n) ≠ 0.
Proof.
  intros Hn H. apply (f_equal this) in H. cbn in H.
  injection H as H. lia.
Qed.

Lemma max0_nonneg x : 0 ≤ x -> max0 x = x.
Proof.
  intros Hx. unfold max0. case_decide as H; [done|].
  apply Qcnot_lt_le in H. by apply Qcle_antisym.
Qed.

Lemma Qcle_diff (a b : Qc) : a ≤ b -> 0 ≤ b - a.
Proof. intros H. by apply (proj1 (Qcle_minus_iff a b)). Qed.



Lemma nao_informados_le info : (nao_informados info <= List.length info)%nat.
Proof. unfold nao_informados. apply length_filter. Qed.


Lemma Qc_of_Z_0 : Qc_of_Z 0 = 0.
Proof. by apply Qc_is_canon. Qed.

Lemma Qc_of_Z_succ (n : nat) :
  Qc_of_Z (Z.of_nat (S n)) = 1 + Qc_of_Z (Z.of_nat n).
Proof.
  apply Qc_is_canon. rewrite Nat2Z.inj_succ.
  change (inject_Z (Z.succ (Z.of_nat n)) == Qred (1 + inject_Z (Z.of_nat n)))%Q.
  rewrite Qred_correct. unfold Qeq. cbn. lia.
Qed.

Lemma soma_creditos_default (c : Qc) info :
  soma_creditos (map (fun x => (x.1, Some (default c x.2))) info)
  = total_declarado info + Qc_of_Z (Z.of_nat (nao_informados info)) * c.
Proof.
  unfold soma_creditos, total_declarado, nao_informados.
  induction info as [|[b [q|]] info IH].
  - change (0 = 0 + Qc_of_Z 0 * c). rewrite Qc_of_Z_0. ring.
  - rewrite filter_cons_False by done.
    cbn [map foldr fst snd default] in *. rewrite IH. unfold id. ring.
  - rewrite filter_cons_True by done.
    cbn [map foldr List.length fst snd default] in *.
    rewrite IH, Qc_of_Z_succ. unfold id. ring.
Qed.

Lemma soma_creditos_proporcional (c : Qc) info :
  nao_informados info = 0%nat ->
  soma_creditos (map (fun x => (x.1, (fun pct => pct + c * pct) <$> x.2)) info)
  = total_declarado info + c * total_declarado info.
Proof.
  unfold soma_creditos, total_declarado, nao_informados.
  induction info as [|[b [q|]] info IH]; intros H.
  - cbn. ring.
  - rewrite filter_cons_False in H by done.
    cbn [map foldr fst snd default fmap option_fmap option_map] in *.
    rewrite IH by done. unfold id. ring.
  - rewrite filter_cons_True in H by done. done.
Qed.
End Repartir.




(** ** The action normalizer *)

Section Normalizador.
Implicit Types (acao : Acao) (l : list Acao).

Lemma sorted_id {A} (le : A -> A -> bool) (l : list A) :
  Sorted (fun x y => le x y = true) l -> sorted le l = l.
Proof.
  induction 1 as [|x l Hs IH Hd]; [done|].
  unfold sorted in *. cbn [foldr]. rewrite IH.
  destruct Hd as [|y l Hxy]; [done|]. cbn. by rewrite Hxy.
Qed.

Lemma append_nonempty (s r : string) (c : ascii) : s +:+ String c r ≠ "".
Proof. by destruct s. Qed.

Lemma strftime_nonempty (d : datetime) : strftime d ≠ "".
Proof. unfold strftime. apply append_nonempty. Qed.

Lemma com_data_canonica acao :
  data_canonica acao ->
  com_data acao (strftime (parse_data (data_de acao))) = acao.
Proof.
  unfold data_canonica. intros H.
  assert (Hd : data_de acao = Date acao).
  { unfold data_de, str_or. destruct (String.eqb (Date acao) "") eqn:E; [|done].
    apply String.eqb_eq in E. rewrite E in H.
    by destruct (strftime_nonempty (parse_data "")). }
  rewrite Hd, <- H. by destruct acao.
Qed.

Lemma unicas_sem_repeticao l (vistas : gset chave_t) (acc : list Acao) :
  NoDup (map chave_acao l) ->
  (forall a, a ∈ l -> chave_acao a ∉ vistas) ->
  Forall data_canonica l ->
  (foldl passo_unicas (vistas, acc) l).2 = (acc ++ l)%list.
Proof.
  revert vistas acc. induction l as [|a l IH]; intros vistas acc Hnd Hv Hc.
  - cbn. by rewrite app_nil_r.
  - cbn [foldl]. unfold passo_unicas at 2. cbn [fst snd].
    rewrite decide_False by (apply Hv; by left).
    apply Forall_cons in Hc as [Ha Hc].
    cbn [map] in Hnd. apply NoDup_cons in Hnd as [Hnin Hnd].
    rewrite com_data_canonica by done.
    rewrite IH; [by rewrite <- app_assoc | done | | done].
    intros b Hb Hin. apply elem_of_union in Hin as [Hin|Hin].
    + apply elem_of_singleton in Hin. apply Hnin. rewrite <- Hin.
      apply list_elem_of_fmap. by exists b.
    + apply (Hv b); [by right | done].
Qed.
End Normalizador.


(** C8, as the code has it.  A list that is sorted by (parsed date,
    lower-cased type label), has no two actions with the same
    deduplication key and has every date already in the canonical
    day/month/year text is returned unchanged by the normalizer. *)
Theorem normalizar_ja_normalizada (acoes : list Acao) :
  NoDup (map chave_acao acoes) ->
  Sorted em_ordem acoes ->
  Forall data_canonica acoes ->
  normalizar_e_ordenar_acoes acoes = acoes.
Proof.
  intros Hnd Hs Hc. unfold normalizar_e_ordenar_acoes.
  rewrite unicas_sem_repeticao; [|done| |done].
  - cbn [app]. by apply sorted_id.
  - intros a _. apply not_elem_of_empty.
Qed.

Lemma normalizar_ja_normalizada_witness :
  normalizar_e_ordenar_acoes ja_normalizada_ex = ja_normalizada_ex.
Proof.
  apply (normalizar_ja_normalizada ja_normalizada_ex).
  - apply (bool_decide_unpack (NoDup (map chave_acao ja_normalizada_ex))).
    vm_compute. exact I.
  - repeat constructor.
  - repeat constructor.
Defined.

(** C8 fails on the normalizer's own output: two sales of the same day
    written as 01/02/2020 and 2020-02-01 have different keys, so both are
    kept, but after their dates are rewritten the keys coincide and a
    second pass drops one of them. *)
Lemma normalizar_nao_idempotente :
  List.length (normalizar_e_ordenar_acoes datas_iguais_ex) = 2%nat
  /\ List.length (normalizar_e_ordenar_acoes
                    (normalizar_e_ordenar_acoes datas_iguais_ex)) = 1%nat
  /\ normalizar_e_ordenar_acoes (normalizar_e_ordenar_acoes datas_iguais_ex)
     ≠ normalizar_e_ordenar_acoes datas_iguais_ex.
Proof.
  split; [vm_compute; reflexivity|]. split; [vm_compute; reflexivity|].
  intros H. apply (f_equal List.length) in H. vm_compute in H. discriminate.
Qed.

(** ** The credits never hold [None] *)

Section SemNone.
Implicit Types (info : list (Party * option Qc)) (t : Qc).

Lemma informados_sem_None info :
  nao_informados info = 0%nat -> Forall (fun x => x.2 <> None) info.
Proof.
  unfold nao_informados. induction info as [|[b [q|]] info IH]; intros H.
  - constructor.
  - rewrite filter_cons_False in H by done. constructor; [done | by apply IH].
  - rewrite filter_cons_True in H by done. done.
Qed.

Lemma repartir_declarados_sem_None t info :
  Forall (fun x => x.2 <> None) (repartir_declarados t info).
Proof.
  unfold repartir_declarados.
  destruct (decide (0 < nao_informados info)%nat) as [_|Hk].
  - apply Forall_forall. intros x Hx. apply list_elem_of_fmap in Hx as (y & -> & _). done.
  - assert (H0 : nao_informados info = 0%nat) by lia.
    apply informados_sem_None in H0.
    case_decide; [|done].
    apply Forall_forall. intros x Hx. apply list_elem_of_fmap in Hx as (y & -> & Hy).
    rewrite Forall_forall in H0. specialize (H0 y Hy). cbn. by destruct (y.2).
Qed.

Lemma partes_iguais_sem_None info :
  Forall (fun x => x.2 <> None) (partes_iguais info).
Proof.
  apply Forall_forall. intros x Hx. apply list_elem_of_fmap in Hx as (y & -> & _). done.
Qed.

Lemma repartir_sem_None t info :
  Forall (fun x => x.2 <> None) (repartir_transferencia t info)
  /\ Forall (fun x => x.2 <> None) (repartir_partilha t info).
Proof.
  unfold repartir_transferencia, repartir_partilha.
  destruct (nenhum_informado info);
    auto using partes_iguais_sem_None, repartir_declarados_sem_None.
Qed.

Lemma creditar_todos_ok (p : gmap string Registro) info :
  Forall (fun x => x.2 <> None) info ->
  exists p', creditar_todos p info = Ok p'
    /\ total p' = total p + soma_creditos info.
Proof.
  intros H. revert p. induction H as [|[b [q|]] info Hx _ IH]; intros p.
  - exists p. split; [done|]. change (total p = total p + 0). ring.
  - destruct (IH (creditar p b q)) as (p' & E & T). exists p'. split; [exact E|].
    rewrite T, total_creditar. unfold soma_creditos, total_declarado.
    cbn [foldr snd default]. unfold id. ring.
  - done.
Qed.

End SemNone.

(** ** The percentage parser *)

Section Texto.
Implicit Types (s r ip fp : string) (c : ascii).

Ltac por_casos c :=
  destruct c as [[] [] [] [] [] [] [] []]; try discriminate; try reflexivity.

Lemma numerico_sem_espaco c : numerico c = true -> is_space c = false.
Proof. por_casos c. Qed.



Lemma numerico_nao_letra c d :
  numerico c = true -> in_range "a" "z" d = true -> c <> d.
Proof. intros Hc Hd ->. revert Hc Hd. por_casos d. Qed.

Lemma digito_numerico c : is_digit c = true -> numerico c = true.
Proof. unfold numerico. by intros ->. Qed.





Lemma all_chars_impl (p q : ascii -> bool) s :
  (forall c, p c = true -> q c = true) ->
  all_chars p s = true -> all_chars q s = true.
Proof.
  intros Hpq. induction s as [|c s IH]; [done|]. cbn.
  intros H. apply andb_true_iff in H as [Hc Hs].
  by rewrite (Hpq c Hc), IH.
Qed.

Lemma all_chars_app p s r :
  all_chars p (s +:+ r) = all_chars p s && all_chars p r.
Proof.
  induction s as [|c s IH]; [done|].
  change (p c && all_chars p (s +:+ r) = p c && all_chars p s && all_chars p r).
  by rewrite IH, andb_assoc.
Qed.

Lemma rstrip_id s : all_chars numerico s = true -> rstrip s = s.
Proof.
  induction s as [|c s IH]; [done|]. cbn.
  intros H. apply andb_true_iff in H as [Hc Hs].
  rewrite IH by done. rewrite (numerico_sem_espaco c Hc). by destruct s.
Qed.

Lemma strip_id s : all_chars numerico s = true -> strip s = s.
Proof.
  intros H. unfold strip.
  assert (Hl : lstrip s = s).
  { destruct s as [|c s]; [done|]. cbn in *.
    apply andb_true_iff in H as [Hc _]. by rewrite (numerico_sem_espaco c Hc). }
  rewrite Hl. by apply rstrip_id.
Qed.











Lemma digitos_numerico s : digitos s -> all_chars numerico s = true.
Proof. apply all_chars_impl, digito_numerico. Qed.











(** Every outcome of the parser: a value, the unknown marker without a
    warning (absent or sentinel input), the unknown marker with a warning,
    or the overflow of a fraction. *)
Lemma parse_percentual_desfechos (v : pyval) :
  (exists q, parse_percentual_log v = ([], Ok (Some q)))
  \/ parse_percentual_log v = ([], Ok None)
  \/ parse_percentual_log v = ([PercentualInvalido v], Ok None)
  \/ parse_percentual_log v = ([], Raise OverflowError).
Proof.
  unfold parse_percentual_log.
  destruct v; repeat case_match; eauto.
Qed.
End Texto.




(** ** The dispatcher on cancellations *)

Section Despacho.
Implicit Types (s r a b h : string) (c : ascii).

Lemma contains_unfold b h :
  contains b h
  = String.prefix b h
    || match h with String _ r => contains b r | EmptyString => false end.
Proof. by destruct h. Qed.

Lemma prefix_contains a b h :
  String.prefix (a +:+ b) h = true -> contains b h = true.
Proof.
  revert h. induction a as [|c a IH]; intros h H.
  - change (String.prefix b h = true) in H. by rewrite contains_unfold, H.
  - destruct h as [|d h]; [done|].
    change (String.prefix (String c (a +:+ b)) (String d h) = true) in H.
    cbn [String.prefix] in H. destruct (ascii_dec c d); [|done].
    rewrite contains_unfold, (IH h H). apply orb_true_r.
Qed.

Lemma contains_sufixo a b h :
  contains (a +:+ b) h = true -> contains b h = true.
Proof.
  induction h as [|d h IH]; rewrite (contains_unfold (a +:+ b)); intros H;
    apply orb_true_iff in H as [H|H].
  - by apply (prefix_contains a).
  - done.
  - by apply (prefix_contains a).
  - rewrite contains_unfold, (IH H). apply orb_true_r.
Qed.

Lemma prefix_app_l a b h :
  String.prefix (a +:+ b) h = true -> String.prefix a h = true.
Proof.
  revert h. induction a as [|c a IH]; intros h H.
  - by destruct h.
  - destruct h as [|d h]; [done|].
    change (String.prefix (String c (a +:+ b)) (String d h) = true) in H.
    cbn [String.prefix] in *. destruct (ascii_dec c d); [by apply IH | done].
Qed.

Lemma contains_prefixo a b h :
  contains (a +:+ b) h = true -> contains a h = true.
Proof.
  induction h as [|d h IH]; rewrite (contains_unfold (a +:+ b)); intros H;
    apply orb_true_iff in H as [H|H]; rewrite contains_unfold.
  - by rewrite (prefix_app_l a b _ H).
  - done.
  - by rewrite (prefix_app_l a b _ H).
  - rewrite (IH H). apply orb_true_r.
Qed.

(** Every label of a cancellation is caught by the test for a grant, which
    comes first in the dispatcher. *)
Lemma cancelamento_contem_usufruto (tipo : string) :
  contains "cancelamento de usufruto" tipo = true ->
  contains "usufruto" tipo = true.
Proof. apply (contains_sufixo "cancelamento de " "usufruto"). Qed.

(** So a cancellation that no earlier branch takes runs the grant. *)
Lemma cancelamento_segue_usufruto (st : estado) (acao : Acao) :
  let tipo := lower (obter_tipo_acao acao) in
  contains "cancelamento de usufruto" tipo = true ->
  existsb (fun x => contains x tipo)
    ["alteração do estado civil e nome"; "alteração nome"; "casamento";
     "venda"; "sale"; "doação"; "donation"; "óbito"; "falecimento"; "death";
     "partilha"; "share"] = false ->
  processar_acao st acao
  = (u ← processar_usufruto st.2 acao; Ok (podar st.1, u)).
Proof.
  intros tipo Hc Hn. cbn [existsb] in Hn.
  repeat (apply orb_false_iff in Hn as [? Hn]).
  assert (Hu := cancelamento_contem_usufruto tipo Hc).
  assert (Hv : contains "venda nua propriedade" tipo = false).
  { destruct (contains "venda nua propriedade" tipo) eqn:E; [|done].
    apply (contains_prefixo "venda" " nua propriedade") in E. congruence. }
  unfold processar_acao. fold tipo. cbn [existsb].
  repeat match goal with H : contains _ tipo = _ |- _ => rewrite H; clear H end.
  cbn [orb]. by destruct (processar_usufruto st.2 acao).
Qed.
End Despacho.

(** * Properties of the code beyond the claims *)

(** ** Dates: what [parse_data] returns *)

Section Datas.
Implicit Types (s r : string) (d : datetime) (fmt : list item).

Lemma strptime_valido s fmt d : strptime s fmt = Some d -> valid_date d = true.
Proof.
  unfold strptime.
  destruct (match_items fmt _ s) as [|[d' [|? ?]] ?]; try done.
  destruct (valid_date d') eqn:E; [|done]. by intros [= <-].
Qed.

Lemma first_format_valido s (fmts : list (list item)) :
  valid_date (first_format s fmts) = true.
Proof.
  induction fmts as [|fmt fmts IH]; [done|]. cbn.
  destruct (strptime s fmt) as [d|] eqn:E; [by eapply strptime_valido | done].
Qed.

Lemma first_format_origem s (fmts : list (list item)) :
  first_format s fmts = sentinela_data
  \/ exists fmt, fmt ∈ fmts /\ strptime s fmt = Some (first_format s fmts).
Proof.
  induction fmts as [|fmt fmts IH]; [by left|]. cbn.
  destruct (strptime s fmt) as [d|] eqn:E.
  - right. exists fmt. split; [by left | done].
  - destruct IH as [IH|(f & Hf & IH)]; [by left|].
    right. exists f. split; [by right | done].
Qed.
End Datas.

(** X1.  [parse_data] never fails and always returns a date of the
    calendar: either the default 1 January 1900, or what one of the five
    formats reads in the stripped text. *)
Theorem parse_data_sempre_valida (data_str : string) :
  valid_date (parse_data data_str) = true
  /\ (parse_data data_str = sentinela_data
      \/ exists fmt, fmt ∈ formatos
           /\ strptime (strip data_str) fmt = Some (parse_data data_str)).
Proof.
  split; [apply first_format_valido | apply first_format_origem].
Qed.

Section Ida.
Implicit Types (s r : string) (d : datetime) (fmt : list item).

Lemma anos_legiveis : forallb ano_legivel (seqZ 1000 9000) = true.
Proof. vm_compute. reflexivity. Qed.

Lemma ano_legivel_intervalo (y : Z) :
  (1000 <= y <= 9999)%Z -> ano_legivel y = true.
Proof.
  intros Hy. assert (H := anos_legiveis). rewrite forallb_forall in H.
  apply H. apply list_elem_of_In, elem_of_seqZ. lia.
Qed.

Ltac enumerar n lo len :=
  let H := fresh "H" in
  assert (H : In n (seqZ lo len)) by (apply list_elem_of_In, elem_of_seqZ; lia);
  vm_compute in H;
  repeat (destruct H as [<-|H]; [vm_compute; repeat split|]);
  destruct H.

Lemma re_d_pad2 (n : Z) (resto : string) :
  (1 <= n <= 31)%Z ->
  hd_error (re_d (pad2 n +:+ resto)) = Some (n, resto)
  /\ all_chars numerico (pad2 n) = true.
Proof. intros Hn. enumerar n 1%Z 31%Z. Qed.

Lemma re_m_pad2 (n : Z) (resto : string) :
  (1 <= n <= 12)%Z ->
  hd_error (re_m (pad2 n +:+ resto)) = Some (n, resto)
  /\ all_chars numerico (pad2 n) = true.
Proof. intros Hn. enumerar n 1%Z 12%Z. Qed.

Lemma hd_error_bind {A B} (l : list A) (f : A -> list B) (x : A) (y : B) :
  hd_error l = Some x -> hd_error (f x) = Some y -> hd_error (l ≫= f) = Some y.
Proof.
  destruct l as [|x' l]; [done|]. intros [= ->]. cbn.
  destruct (f x) as [|y' l']; [done|]. by intros [= ->].
Qed.

Lemma strptime_hd s fmt d :
  hd_error (match_items fmt {| ano := 1900; mes := 1; dia := 1 |} s) = Some (d, "") ->
  valid_date d = true ->
  strptime s fmt = Some d.
Proof.
  unfold strptime. destruct (match_items fmt _ s) as [|[d' r] l]; [done|].
  intros [= -> ->] Hv. by rewrite Hv.
Qed.

Lemma days_in_month_31 (y m : Z) : (days_in_month y m <= 31)%Z.
Proof. unfold days_in_month. repeat case_match; lia. Qed.

Lemma valid_date_limites d :
  valid_date d = true ->
  (1 <= ano d <= 9999 /\ 1 <= mes d <= 12 /\ 1 <= dia d <= 31)%Z.
Proof.
  unfold valid_date. intros H.
  repeat (apply andb_true_iff in H as [H ?]).
  pose proof (days_in_month_31 (ano d) (mes d)). lia.
Qed.

Lemma match_items_lit (c : ascii) fmt (acc : datetime) r :
  match_items (Lit c :: fmt) acc (String c "" +:+ r) = match_items fmt acc r.
Proof.
  change (match_items (Lit c :: fmt) acc (String c r) = match_items fmt acc r).
  cbn [match_items]. by rewrite Ascii.eqb_refl.
Qed.

Lemma match_items_d fmt (acc : datetime) s (n : Z) r :
  hd_error (re_d s) = Some (n, r) ->
  forall x, hd_error (match_items fmt {| ano := ano acc; mes := mes acc; dia := n |} r)
            = Some x ->
  hd_error (match_items (Dd :: fmt) acc s) = Some x.
Proof. intros H x Hx. by apply (hd_error_bind _ _ (n, r)). Qed.

Lemma match_items_m fmt (acc : datetime) s (n : Z) r :
  hd_error (re_m s) = Some (n, r) ->
  forall x, hd_error (match_items fmt {| ano := ano acc; mes := n; dia := dia acc |} r)
            = Some x ->
  hd_error (match_items (Dm :: fmt) acc s) = Some x.
Proof. intros H x Hx. by apply (hd_error_bind _ _ (n, r)). Qed.

Lemma match_items_Y (acc : datetime) s (n : Z) :
  re_Y s = [(n, "")] ->
  hd_error (match_items [DY] acc s)
  = Some ({| ano := n; mes := mes acc; dia := dia acc |}, "").
Proof. intros H. cbn [match_items]. by rewrite H. Qed.

Lemma strptime_strftime d :
  valid_date d = true -> (1000 <= ano d)%Z ->
  strptime (strftime d) [Dd; Lit "/"; Dm; Lit "/"; DY] = Some d.
Proof.
  intros Hv Hy. destruct (valid_date_limites d Hv) as (Ha & Hm & Hd).
  apply strptime_hd; [|done]. unfold strftime.
  assert (Hano := ano_legivel_intervalo (ano d) ltac:(lia)).
  apply andb_true_iff in Hano as [Hano _]. apply bool_decide_eq_true in Hano.
  eapply match_items_d; [apply (re_d_pad2 (dia d) _ Hd)|].
  rewrite match_items_lit.
  eapply match_items_m; [apply (re_m_pad2 (mes d) _ Hm)|].
  rewrite match_items_lit, (match_items_Y _ _ _ Hano). by destruct d.
Qed.

Lemma strftime_numerico d :
  valid_date d = true -> (1000 <= ano d)%Z ->
  all_chars numerico (strftime d) = true.
Proof.
  intros Hv Hy. destruct (valid_date_limites d Hv) as (Ha & Hm & Hd).
  assert (Hano := ano_legivel_intervalo (ano d) ltac:(lia)).
  apply andb_true_iff in Hano as [_ Hano].
  unfold strftime. rewrite !all_chars_app.
  rewrite (proj2 (re_d_pad2 (dia d) "" Hd)), (proj2 (re_m_pad2 (mes d) "" Hm)).
  rewrite (digitos_numerico _ Hano). reflexivity.
Qed.

Lemma parse_data_ida d :
  valid_date d = true -> (1000 <= ano d)%Z -> parse_data (strftime d) = d.
Proof.
  intros Hv Hy. unfold parse_data.
  rewrite (strip_id _ (strftime_numerico d Hv Hy)).
  cbn [formatos first_format]. by rewrite (strptime_strftime d Hv Hy).
Qed.
End Ida.

(** X2.  Writing a date of the calendar from year 1000 on as
    day/month/year and parsing the text gives the date back: the first
    format reads what the normalizer writes.  (Earlier years are written
    without leading zeros and are not read back.) *)
Theorem parse_data_strftime (d : datetime) :
  valid_date d = true -> (1000 <= ano d)%Z ->
  parse_data (strftime d) = d.
Proof. apply parse_data_ida. Qed.

Lemma parse_data_strftime_witness :
  parse_data (strftime bissexto_ex) = bissexto_ex.
Proof.
  apply (parse_data_strftime bissexto_ex).
  - reflexivity.
  - vm_compute. discriminate.
Defined.

(** ** The normalizer: what the output is made of *)

Section Ordenacao.
Context {A : Type} (le : A -> A -> bool).
Hypothesis le_total : forall x y, le x y = false -> le y x = true.

Lemma insert_sorted_perm (x : A) (l : list A) : insert_sorted le x l ≡ₚ x :: l.
Proof.
  induction l as [|y l IH]; [done|]. cbn.
  destruct (le x y); [done|]. rewrite IH. apply Permutation_swap.
Qed.

Lemma sorted_perm (l : list A) : sorted le l ≡ₚ l.
Proof.
  induction l as [|x l IH]; [done|].
  unfold sorted in *. cbn [foldr]. by rewrite insert_sorted_perm, IH.
Qed.

Lemma insert_sorted_hd (x y : A) (l : list A) :
  le y x = true ->
  HdRel (fun a b => le a b = true) y l ->
  HdRel (fun a b => le a b = true) y (insert_sorted le x l).
Proof.
  intros Hyx Hd. destruct l as [|z l]; cbn.
  - by constructor.
  - destruct (le x z); constructor; [done|]. by inversion Hd.
Qed.

Lemma insert_sorted_sorted (x : A) (l : list A) :
  Sorted (fun a b => le a b = true) l ->
  Sorted (fun a b => le a b = true) (insert_sorted le x l).
Proof.
  induction 1 as [|y l Hs IH Hd]; cbn.
  - by repeat constructor.
  - destruct (le x y) eqn:E.
    + constructor; [by constructor | by constructor].
    + constructor; [done|]. apply insert_sorted_hd; [by apply le_total | done].
Qed.

Lemma sorted_sorted (l : list A) : Sorted (fun a b => le a b = true) (sorted le l).
Proof.
  induction l as [|x l IH]; [constructor|].
  unfold sorted in *. cbn [foldr]. by apply insert_sorted_sorted.
Qed.
End Ordenacao.

Section Unicas.
Implicit Types (acao : Acao) (l ks : list Acao) (vistas : gset chave_t).

Lemma datetime_le_total (a b : datetime) :
  a <> b -> datetime_le a b = false -> datetime_le b a = true.
Proof.
  destruct a as [y1 m1 d1], b as [y2 m2 d2]. unfold datetime_le. cbn.
  intros Hne H.
  destruct (Z.ltb_spec y1 y2), (Z.eqb_spec y1 y2), (Z.ltb_spec m1 m2),
    (Z.eqb_spec m1 m2), (Z.leb_spec d1 d2); try discriminate; try lia;
  destruct (Z.ltb_spec y2 y1), (Z.eqb_spec y2 y1), (Z.ltb_spec m2 m1),
    (Z.eqb_spec m2 m1), (Z.leb_spec d2 d1); try reflexivity; try lia.
  all: exfalso; apply Hne; f_equal; lia.
Qed.

Lemma ordem_le_total (a b : datetime * string) :
  ordem_le a b = false -> ordem_le b a = true.
Proof.
  unfold ordem_le. intros H.
  destruct (decide (a.1 = b.1)) as [He|Hne].
  - rewrite decide_True by done.
    destruct (String.leb_total a.2 b.2) as [H1|H1]; [congruence | done].
  - rewrite decide_False by done. by apply datetime_le_total.
Qed.

Lemma unicas_caracterizacao l vistas (acc : list Acao) :
  exists ks, ks `sublist_of` l
    /\ NoDup (map chave_acao ks)
    /\ (forall a, a ∈ ks -> chave_acao a ∉ vistas)
    /\ (forall a, a ∈ l -> chave_acao a ∈ vistas \/ chave_acao a ∈ map chave_acao ks)
    /\ (foldl passo_unicas (vistas, acc) l).2 = (acc ++ map canonizar ks)%list.
Proof.
  revert vistas acc. induction l as [|a l IH]; intros vistas acc.
  - exists []. split; [constructor|]. split; [constructor|].
    split; [intros x Hx; by apply elem_of_nil in Hx|].
    split; [intros x Hx; by apply elem_of_nil in Hx|].
    cbn. by rewrite app_nil_r.
  - cbn [foldl]. unfold passo_unicas at 2. cbn [fst snd].
    destruct (decide (chave_acao a ∈ vistas)) as [Hin|Hnin].
    + destruct (IH vistas acc) as (ks & Hs & Hn & Hv & Hc & E).
      exists ks. split; [by apply sublist_cons|]. split; [done|]. split; [done|].
      split; [|done]. intros b Hb. apply elem_of_cons in Hb as [->|Hb]; [by left | by apply Hc].
    + destruct (IH ({[chave_acao a]} ∪ vistas)
                  (acc ++ [canonizar a])%list) as (ks & Hs & Hn & Hv & Hc & E).
      exists (a :: ks). split; [by apply sublist_skip|]. split; [|split; [|split]].
      * cbn [map]. apply NoDup_cons. split; [|done].
        intros Hk. apply list_elem_of_fmap in Hk as (b & Hb & Hbk).
        apply (Hv b Hbk). rewrite <- Hb. apply elem_of_union_l. by apply elem_of_singleton.
      * intros b Hb. apply elem_of_cons in Hb as [->|Hb]; [done|].
        intros Hbv. apply (Hv b Hb). by apply elem_of_union_r.
      * intros b Hb. apply elem_of_cons in Hb as [->|Hb].
        -- right. cbn [map]. by left.
        -- destruct (Hc b Hb) as [Hk|Hk].
           ++ apply elem_of_union in Hk as [Hk|Hk]; [|by left].
              apply elem_of_singleton in Hk. right. rewrite Hk. cbn [map]. by left.
           ++ right. cbn [map]. by right.
      * unfold canonizar in *. rewrite E. by rewrite <- app_assoc.
Qed.

Lemma normalizar_em_ordem l : Sorted em_ordem (normalizar_e_ordenar_acoes l).
Proof.
  unfold normalizar_e_ordenar_acoes, em_ordem.
  apply (sorted_sorted (fun x y => ordem_le (ordem_acao x) (ordem_acao y))).
  intros x y. apply ordem_le_total.
Qed.
End Unicas.

(** X3.  The output of the normalizer is sorted by (parsed date,
    lower-cased label) and is a rearrangement of the first occurrences of
    the input: a sublist of the input with pairwise different
    deduplication keys, covering the key of every input action, each
    action with its date rewritten as day/month/year and nothing else
    changed. *)
Theorem normalizar_caracterizacao (acoes : list Acao) :
  Sorted em_ordem (normalizar_e_ordenar_acoes acoes)
  /\ exists ks, ks `sublist_of` acoes
       /\ NoDup (map chave_acao ks)
       /\ (forall a, a ∈ acoes -> chave_acao a ∈ map chave_acao ks)
       /\ normalizar_e_ordenar_acoes acoes ≡ₚ map canonizar ks.
Proof.
  split; [apply normalizar_em_ordem|].
  destruct (unicas_caracterizacao acoes ∅ []) as (ks & Hs & Hn & _ & Hc & E).
  exists ks. split; [done|]. split; [done|]. split.
  - intros a Ha. destruct (Hc a Ha) as [H|H]; [|done]. by apply not_elem_of_empty in H.
  - unfold normalizar_e_ordenar_acoes. rewrite E. cbn [app]. apply sorted_perm.
Qed.

Section Canonicas.
Implicit Types (acao : Acao) (l ks : list Acao).

Lemma data_de_canonizar acao : Date (canonizar acao) = strftime (parse_data (data_de acao)).
Proof. done. Qed.

Lemma canonizar_canonica acao :
  (1000 <= ano (parse_data (data_de acao)))%Z -> data_canonica (canonizar acao).
Proof.
  intros Hy. unfold data_canonica. rewrite data_de_canonizar.
  rewrite parse_data_ida; [done | | done].
  apply first_format_valido.
Qed.

Lemma normalizar_canonica l :
  (forall a, a ∈ l -> (1000 <= ano (parse_data (data_de a)))%Z) ->
  Forall data_canonica (normalizar_e_ordenar_acoes l).
Proof.
  intros Hy.
  destruct (unicas_caracterizacao l ∅ []) as (ks & Hs & _ & _ & _ & E).
  unfold normalizar_e_ordenar_acoes. rewrite E. cbn [app].
  rewrite (sorted_perm _ (map canonizar ks)).
  apply Forall_forall. intros a Ha. apply list_elem_of_fmap in Ha as (a0 & -> & Ha0).
  apply canonizar_canonica, Hy.
  eapply sublist_submseteq, submseteq_Permutation in Hs as [k Hk].
  rewrite Hk. apply elem_of_app. by left.
Qed.
End Canonicas.

(** X4.  When every date of the input parses to year 1000 or later,
    normalizing the output again changes nothing exactly when the
    rewritten dates have not made two deduplication keys equal: the
    second pass is the identity if and only if the keys of the first
    output are pairwise different. *)
Theorem normalizar_duas_vezes (acoes : list Acao) :
  (forall a, a ∈ acoes -> (1000 <= ano (parse_data (data_de a)))%Z) ->
  (normalizar_e_ordenar_acoes (normalizar_e_ordenar_acoes acoes)
   = normalizar_e_ordenar_acoes acoes
   <-> NoDup (map chave_acao (normalizar_e_ordenar_acoes acoes))).
Proof.
  intros Hy. set (n := normalizar_e_ordenar_acoes acoes).
  assert (Hc : Forall data_canonica n) by (by apply normalizar_canonica).
  assert (Hs : Sorted em_ordem n) by apply normalizar_em_ordem.
  split.
  - intros E.
    destruct (unicas_caracterizacao n ∅ []) as (ks & Hsub & Hnd & _ & _ & Ek).
    assert (Hp : n ≡ₚ map canonizar ks).
    { rewrite <- E at 1. unfold normalizar_e_ordenar_acoes. rewrite Ek. cbn [app].
      apply sorted_perm. }
    assert (Hl : List.length n = List.length ks).
    { rewrite Hp. apply length_map. }
    assert (Hk : ks ≡ₚ n).
    { apply submseteq_length_Permutation; [by apply sublist_submseteq | lia]. }
    by rewrite <- Hk.
  - intros Hnd. unfold normalizar_e_ordenar_acoes at 1. fold n.
    rewrite unicas_sem_repeticao; [|done| |done].
    + cbn [app]. by apply sorted_id.
    + intros a _. apply not_elem_of_empty.
Qed.

Lemma normalizar_duas_vezes_witness :
  normalizar_e_ordenar_acoes (normalizar_e_ordenar_acoes ja_normalizada_ex)
  = normalizar_e_ordenar_acoes ja_normalizada_ex
  <-> NoDup (map chave_acao (normalizar_e_ordenar_acoes ja_normalizada_ex)).
Proof.
  apply (normalizar_duas_vezes ja_normalizada_ex).
  intros a Ha. unfold ja_normalizada_ex in Ha.
  rewrite !elem_of_cons, elem_of_nil in Ha.
  destruct Ha as [->|[->|[]]]; vm_compute; discriminate.
Defined.

(** ** Names and ledger keys *)

Section Nomes.
Implicit Types (s r : string) (c : ascii) (lead : bool).

Ltac por_casos c :=
  destruct c as [[] [] [] [] [] [] [] []]; try discriminate; try reflexivity.
















End Nomes.





(** ** The parser on text without a slash *)

Section NaoNegativo.
Implicit Types (s r ip fp : string) (c : ascii).

Lemma digit_val_nonneg c : is_digit c = true -> (0 <= digit_val c)%Z.
Proof.
  unfold is_digit, digit_val. intros H. apply andb_true_iff in H as [H _].
  apply N.leb_le in H. lia.
Qed.

Lemma digits_val_nonneg (acc : Z) s :
  (0 <= acc)%Z -> digitos s -> (0 <= digits_val acc s)%Z.
Proof.
  unfold digitos. revert acc. induction s as [|c s IH]; intros acc Ha; [done|].
  cbn. intros H. apply andb_true_iff in H as [Hc Hs].
  apply IH; [|done]. pose proof (digit_val_nonneg c Hc). lia.
Qed.

Lemma digitos_app ip fp : digitos ip -> digitos fp -> digitos (ip +:+ fp).
Proof. unfold digitos. intros Hi Hf. by rewrite all_chars_app, Hi, Hf. Qed.

Lemma Qc_of_Z_nonneg (n : Z) : (0 <= n)%Z -> 0 ≤ Qc_of_Z n.
Proof.
  intros Hn. apply (proj1 (Z2Qc_inj_le 0 n)) in Hn. by rewrite Z2Qc_inj_0 in Hn.
Qed.

Lemma Qc_of_Z_pos (n : Z) : (0 < n)%Z -> 0 < Qc_of_Z n.
Proof.
  intros Hn. apply (proj1 (Z2Qc_inj_lt 0 n)) in Hn. by rewrite Z2Qc_inj_0 in Hn.
Qed.

Lemma decimal_nonneg ip fp : digitos ip -> digitos fp -> 0 ≤ decimal ip fp.
Proof.
  intros Hi Hf. unfold decimal, Qcdiv. apply Qcmult_nonneg_nonneg.
  - apply Qc_of_Z_nonneg, digits_val_nonneg; [done | by apply digitos_app].
  - apply Qclt_le_weak, Qcinv_pos, Qc_of_Z_pos. apply Z.pow_pos_nonneg; lia.
Qed.

Lemma split_partes_digitos s :
  all_chars (fun c => is_digit c || Ascii.eqb c ".") s = true ->
  Forall digitos (split_on "." s).
Proof.
  induction s as [|c s IH]; [by repeat constructor|].
  cbn [all_chars split_on]. intros H. apply andb_true_iff in H as [Hc Hs].
  specialize (IH Hs). destruct (Ascii.eqb c ".") eqn:E.
  - by constructor.
  - rewrite orb_false_r in Hc.
    destruct (split_on "." s) as [|p ps]; [by repeat constructor; unfold digitos; cbn; rewrite Hc|].
    apply Forall_cons in IH as [Hp Hps]. constructor; [|done].
    unfold digitos in *. cbn. by rewrite Hc, Hp.
Qed.

Lemma py_float_nonneg s (v : Qc) : py_float s = Some v -> 0 ≤ v.
Proof.
  unfold py_float.
  destruct (all_chars _ s) eqn:Ha; [|done].
  pose proof (split_partes_digitos s Ha) as Hp.
  destruct (split_on "." s) as [|ip [|fp [|? ?]]]; try done.
  - apply Forall_cons in Hp as [Hi _].
    destruct (String.eqb ip ""); [done|]. intros [= <-]. by apply decimal_nonneg.
  - apply Forall_cons in Hp as [Hi Hp]. apply Forall_cons in Hp as [Hf _].
    destruct (String.eqb ip "" && String.eqb fp ""); [done|].
    intros [= <-]. by apply decimal_nonneg.
Qed.

Lemma Qc_100_pos : 0 < 100.
Proof. reflexivity. Qed.

Lemma parse_sem_barra_ok (s : string) :
  contains "/" (strip s) = false ->
  exists o, parse_percentual (VStr s) = Ok o /\ forall q, o = Some q -> 0 ≤ q.
Proof.
  intros Hs. unfold parse_percentual, parse_percentual_log. cbn [py_str].
  destruct (falsy (VStr s) || _); [by exists None|].
  rewrite Hs.
  destruct (py_float _) as [valor|] eqn:E; cbn [snd]; [|by exists None].
  eexists. split; [done|]. intros q [= <-].
  apply py_float_nonneg in E. case_decide; [|done].
  apply Qcmult_nonneg_nonneg; [done|]. apply Qclt_le_weak, Qc_100_pos.
Qed.
End NaoNegativo.

(** X8.  On text that holds no slash after stripping, the parser never
    raises, and the number it returns, if any, is not negative: every
    character that is not a digit, a dot or a comma is dropped, a minus
    sign included. *)
Theorem parse_percentual_sem_barra (s : string) :
  contains "/" (strip s) = false ->
  exists o, parse_percentual (VStr s) = Ok o
    /\ forall q, o = Some q -> 0 ≤ q.
Proof. apply parse_sem_barra_ok. Qed.

Lemma parse_percentual_sem_barra_witness :
  exists o, parse_percentual (VStr "-12,5%") = Ok o
    /\ forall q, o = Some q -> 0 ≤ q.
Proof. apply (parse_percentual_sem_barra "-12,5%"). reflexivity. Defined.

(** ** The debit loop of a transfer *)

Section Debitos.
Implicit Types (p : gmap string Registro) (r : Registro) (k : string) (t : Qc).

Lemma Qc_100_ne_0 : (100 : Qc) <> 0.
Proof. intros H. by apply (f_equal this) in H. Qed.

Lemma debitar_ignorado p t (a : Party) :
  parse_percentual (Percentage_Transferred a) = Ok None
  \/ (p !! chave_proprietario a = None
      /\ exists o, parse_percentual (Percentage_Transferred a) = Ok o) ->
  debitar (p, t) a = Ok (p, t).
Proof.
  unfold debitar. intros [->|[Hk [o ->]]]; [done|].
  cbn. destruct o; [|done]. by rewrite Hk.
Qed.

Lemma debitar_fora p t (a : Party) p' t' k :
  debitar (p, t) a = Ok (p', t') ->
  k <> chave_proprietario a -> p' !! k = p !! k.
Proof.
  unfold debitar.
  destruct (parse_percentual (Percentage_Transferred a)) as [[f|]|e]; cbn;
    [|by intros [= <- <-]|done].
  destruct (p !! chave_proprietario a) as [r|]; [|by intros [= <- <-]].
  intros [= <- <-] Hne. case_decide.
  - rewrite lookup_delete_ne by done. by rewrite lookup_insert_ne.
  - by rewrite lookup_insert_ne.
Qed.
End Debitos.

(** X9.  Agents whose transferred percentage is unknown, and agents who
    hold no record, are skipped by the debit loop: when every agent is of
    one of these two kinds the ledger and the running total are left as
    they were. *)
Theorem debitos_ignoram (p : gmap string Registro) (t : Qc) (agentes : list Party) :
  Forall (fun a =>
            parse_percentual (Percentage_Transferred a) = Ok None
            \/ (p !! chave_proprietario a = None
                /\ exists o, parse_percentual (Percentage_Transferred a) = Ok o))
         agentes ->
  foldM debitar (p, t) agentes = Ok (p, t).
Proof.
  induction 1 as [|a l Ha _ IH]; [done|].
  cbn [foldM]. by rewrite (debitar_ignorado p t a Ha).
Qed.

Lemma debitos_ignoram_witness :
  foldM debitar (dono_unico, 0) agentes_ignorados_ex = Ok (dono_unico, 0).
Proof.
  apply (debitos_ignoram dono_unico 0 agentes_ignorados_ex).
  constructor; [left; reflexivity|].
  constructor; [right; split; [reflexivity | eexists; vm_compute; reflexivity]|].
  constructor.
Defined.

(** X10.  The debit loop touches no record but those of the agents: a key
    that is not the key of an agent holds after the loop what it held
    before. *)
Theorem debitos_so_nos_agentes (p p' : gmap string Registro) (t t' : Qc)
    (agentes : list Party) (k : string) :
  foldM debitar (p, t) agentes = Ok (p', t') ->
  k ∉ map chave_proprietario agentes ->
  p' !! k = p !! k.
Proof.
  revert p t. induction agentes as [|a l IH]; intros p t.
  - by intros [= <- <-].
  - cbn [foldM map]. destruct (debitar (p, t) a) as [[p1 t1]|e] eqn:E; [|done].
    cbn. intros H Hk. apply not_elem_of_cons in Hk as [Hne Hk].
    rewrite (IH p1 t1 H Hk). by eapply debitar_fora.
Qed.

Lemma debitos_so_nos_agentes_witness :
  exists p' t', foldM debitar (dois_donos, 0) [parte "A" "50" ""] = Ok (p', t')
    /\ p' !! "B" = dois_donos !! "B".
Proof.
  eexists _, _. split; [vm_compute; reflexivity|].
  eapply (debitos_so_nos_agentes dois_donos _ 0 _ [parte "A" "50" ""] "B").
  - vm_compute. reflexivity.
  - apply (bool_decide_unpack _). vm_compute. exact I.
Defined.

(** X11.  One agent who holds a record and states a percentage.  The
    amount share * frac / 100 always joins the total transferred.  When
    what is left of the share falls below the threshold the record is
    deleted, so the ledger loses the whole share although only the amount
    is transferred; at 100 percent the two coincide.  When what is left
    stays at the threshold or above, the record keeps the remainder and
    the ledger total drops by exactly the amount. *)
Theorem debitar_contabiliza (p : gmap string Registro) (t : Qc) (a : Party)
    (r : Registro) (frac : Qc) :
  p !! chave_proprietario a = Some r ->
  parse_percentual (Percentage_Transferred a) = Ok (Some frac) ->
  (Percentual r - Percentual r * (frac / 100) < limiar ->
   debitar (p, t) a
   = Ok (delete (chave_proprietario a) p, t + Percentual r * (frac / 100))
   /\ total (delete (chave_proprietario a) p) + Percentual r = total p)
  /\ (frac = 100 ->
      debitar (p, t) a = Ok (delete (chave_proprietario a) p, t + Percentual r))
  /\ (limiar ≤ Percentual r - Percentual r * (frac / 100) ->
      exists p', debitar (p, t) a = Ok (p', t + Percentual r * (frac / 100))
        /\ p' !! chave_proprietario a
           = Some (com_percentual r (Percentual r - Percentual r * (frac / 100)))
        /\ total p' + Percentual r * (frac / 100) = total p).
Proof.
  intros Hk Hf. unfold debitar. rewrite Hf. cbn [mbind res_bind fst snd]. rewrite Hk.
  split; [|split].
  - intros Hlt. rewrite decide_True by done. rewrite delete_insert_eq.
    split; [done|]. rewrite (total_delete p _ r Hk). ring.
  - intros ->.
    assert (H0 : Percentual r - Percentual r * (100 / 100) = 0)
      by (field; apply Qc_100_ne_0).
    assert (H1 : Percentual r * (100 / 100) = Percentual r)
      by (field; apply Qc_100_ne_0).
    rewrite H0, H1. rewrite decide_True by reflexivity.
    by rewrite delete_insert_eq.
  - intros Hge. rewrite decide_False by (by apply Qcle_not_lt).
    eexists. split; [done|]. split; [apply lookup_insert_eq|].
    rewrite <- insert_delete_eq, total_insert by apply lookup_delete_eq.
    rewrite (total_delete p _ r Hk). cbn. ring.
Qed.

Lemma debitar_contabiliza_witness :
  exists r frac,
    dono_unico !! chave_proprietario (parte "A" "50" "") = Some r
    /\ parse_percentual (Percentage_Transferred (parte "A" "50" "")) = Ok (Some frac)
    /\ (Percentual r - Percentual r * (frac / 100) < limiar ->
        debitar (dono_unico, 0) (parte "A" "50" "")
        = Ok (delete (chave_proprietario (parte "A" "50" "")) dono_unico,
              0 + Percentual r * (frac / 100))
        /\ total (delete (chave_proprietario (parte "A" "50" "")) dono_unico)
           + Percentual r = total dono_unico)
    /\ (frac = 100 ->
        debitar (dono_unico, 0) (parte "A" "50" "")
        = Ok (delete (chave_proprietario (parte "A" "50" "")) dono_unico,
              0 + Percentual r))
    /\ (limiar ≤ Percentual r - Percentual r * (frac / 100) ->
        exists p', debitar (dono_unico, 0) (parte "A" "50" "")
                   = Ok (p', 0 + Percentual r * (frac / 100))
          /\ p' !! chave_proprietario (parte "A" "50" "")
             = Some (com_percentual r (Percentual r - Percentual r * (frac / 100)))
          /\ total p' + Percentual r * (frac / 100) = total dono_unico).
Proof.
  eexists _, _. split; [vm_compute; reflexivity|]. split; [vm_compute; reflexivity|].
  apply (debitar_contabiliza dono_unico 0 (parte "A" "50" "")).
  - vm_compute. reflexivity.
  - vm_compute. reflexivity.
Defined.

(** ** Transfers and partitions: where the percentages go *)

Section Conserva.
Implicit Types (p : gmap string Registro) (r : Registro) (k : string) (t : Qc).
Implicit Types (info : list (Party * option Qc)).

Lemma repartir_declarados_conserva t info :
  total_declarado info ≤ t ->
  ((0 < nao_informados info)%nat \/ 0 < total_declarado info
   \/ total_declarado info = t) ->
  soma_creditos (repartir_declarados t info) = t.
Proof.
  intros Hle Hc. unfold repartir_declarados.
  destruct (decide (0 < nao_informados info)%nat) as [Hk|Hk].
  - rewrite soma_creditos_default, max0_nonneg by (by apply Qcle_diff).
    field. by apply Qc_of_Z_nat_ne_0.
  - assert (Hk0 : nao_informados info = 0%nat) by lia.
    destruct (decide (total_declarado info < t)) as [Hlt|Hnlt].
    + destruct Hc as [?|[Hpos|He]]; [lia| |by rewrite He in Hlt; apply Qclt_not_eq in Hlt].
      destruct (decide (0 < total_declarado info)) as [_|]; [|done].
      rewrite max0_nonneg by (by apply Qcle_diff).
      transitivity (soma_creditos
        (map (fun x => (x.1, (fun pct => pct + ((t - total_declarado info)
                                                / total_declarado info) * pct) <$> x.2))
             info)).
      * f_equal. apply map_ext. intros [b [q|]]; cbn; [|done].
        do 2 f_equal. unfold Qcdiv. ring.
      * rewrite soma_creditos_proporcional by done. field.
        intros H0. rewrite H0 in Hpos. by apply Qclt_not_eq in Hpos.
    + apply Qcnot_lt_le in Hnlt. by apply Qcle_antisym.
Qed.

Lemma repartir_fst t info :
  map fst (repartir_transferencia t info) = map fst info
  /\ map fst (repartir_partilha t info) = map fst info.
Proof.
  assert (Hd : forall t i, map fst (repartir_declarados t i) = map fst i).
  { intros t' i. unfold repartir_declarados.
    repeat case_decide; rewrite ?map_map; done. }
  assert (Hi : map fst (partes_iguais info) = map fst info).
  { unfold partes_iguais. by rewrite map_map. }
  unfold repartir_transferencia, repartir_partilha.
  destruct (nenhum_informado info); [done|]. split; [|apply Hd].
  rewrite Hd. case_decide; [|done]. by rewrite map_map.
Qed.

Lemma ler_beneficiarios_fst (bs : list Party) info :
  ler_beneficiarios bs = Ok info -> map fst info = bs.
Proof.
  unfold ler_beneficiarios. revert info.
  induction bs as [|b bs IH]; intros info.
  - by intros [= <-].
  - cbn. destruct (parse_percentual (Percentage_Received b)) as [o|e]; [|done].
    cbn. destruct (mapM _ bs) as [i|e] eqn:E; [|done].
    cbn. intros [= <-]. cbn. f_equal. by apply IH.
Qed.

Lemma creditar_todos_fora p info p' k :
  creditar_todos p info = Ok p' ->
  k ∉ map (fun x => chave_proprietario x.1) info ->
  p' !! k = p !! k.
Proof.
  revert p. induction info as [|[b [q|]] info IH]; intros p.
  - by intros [= <-].
  - cbn [creditar_todos foldM map fst snd]. cbn.
    intros H Hk. apply not_elem_of_cons in Hk as [Hne Hk].
    rewrite (IH _ H Hk). by apply lookup_creditar_ne.
  - done.
Qed.
End Conserva.



Section Partilha.
Implicit Types (p : gmap string Registro) (r : Registro) (k : string) (t : Qc).

Lemma remover_agentes_total (ags : list Party) p t :
  total (foldl remover_agente (p, t) ags).1 + (foldl remover_agente (p, t) ags).2
  = total p + t.
Proof.
  revert p t. induction ags as [|a l IH]; intros p t; [done|].
  cbn [foldl]. unfold remover_agente at 2 4. cbn [fst snd].
  destruct (p !! chave_proprietario a) as [r|] eqn:Hk.
  - rewrite IH. rewrite (total_delete p _ r Hk). ring.
  - apply IH.
Qed.

Lemma remover_agentes_lookup (ags : list Party) p t k :
  (foldl remover_agente (p, t) ags).1 !! k
  = if decide (k ∈ map chave_proprietario ags) then None else p !! k.
Proof.
  revert p t. induction ags as [|a l IH]; intros p t.
  - cbn. case_decide as H; [by apply elem_of_nil in H | done].
  - cbn [foldl map]. unfold remover_agente at 2. cbn [fst snd].
    destruct (decide (k ∈ chave_proprietario a :: map chave_proprietario l))
      as [Hc|Hc]; rewrite elem_of_cons in Hc;
      destruct (p !! chave_proprietario a) as [r|] eqn:Hk; rewrite IH;
      destruct (decide (k ∈ map chave_proprietario l)) as [Hin|Hin];
      first [ done | tauto
            | destruct Hc as [Hc|]; [subst k|tauto];
              first [apply lookup_delete_eq | done]
            | apply lookup_delete_ne; intros He; apply Hc; by left ].
Qed.
End Partilha.

(** X13.  A partition whose beneficiary reading does not raise returns a
    ledger.  The removal loop deletes exactly the records of the agents
    and sums their shares; the result's total is the total of the records
    that remain plus the credits handed out, records of keys that are no
    beneficiary are as the removal left them, and when some beneficiary
    declares a percentage and the declared sum is at most the share
    removed (and is positive or equal to it when every beneficiary
    declares), the ledger total is the same before and after. *)
Theorem partilha_contabiliza (p : gmap string Registro) (acao : Acao)
    (info : list (Party * option Qc)) :
  ler_beneficiarios (Beneficiaries acao) = Ok info ->
  exists p' restantes removido,
    foldl remover_agente (p, 0) (Agents acao) = (restantes, removido)
    /\ processar_partilha p acao = Ok p'
    /\ total restantes + removido = total p
    /\ (forall k, restantes !! k
                  = if decide (k ∈ map chave_proprietario (Agents acao))
                    then None else p !! k)
    /\ total p' = total restantes + soma_creditos (repartir_partilha removido info)
    /\ (forall k, k ∉ map chave_proprietario (Beneficiaries acao) ->
                  p' !! k = restantes !! k)
    /\ (nenhum_informado info = false ->
        total_declarado info ≤ removido ->
        ((0 < nao_informados info)%nat \/ 0 < total_declarado info
         \/ total_declarado info = removido) ->
        total p' = total p).
Proof.
  intros Hl. unfold processar_partilha. rewrite Hl. cbn [mbind res_bind].
  destruct (foldl remover_agente (p, 0) (Agents acao)) as [restantes removido] eqn:E.
  cbn [fst snd].
  destruct (creditar_todos_ok restantes (repartir_partilha removido info))
    as (p' & Ec & T); [apply repartir_sem_None|].
  assert (Ht : total restantes + removido = total p).
  { pose proof (remover_agentes_total (Agents acao) p 0) as H.
    rewrite E in H. cbn [fst snd] in H. rewrite H. ring. }
  assert (Hk := remover_agentes_lookup (Agents acao) p 0).
  rewrite E in Hk. cbn [fst snd] in Hk.
  exists p', restantes, removido. split; [done|]. split; [done|].
  split; [done|]. split; [done|]. split; [done|]. split.
  - intros k Hnk. apply (creditar_todos_fora _ _ _ _ Ec).
    rewrite <- (map_map fst chave_proprietario).
    rewrite (proj2 (repartir_fst removido info)), (ler_beneficiarios_fst _ _ Hl). done.
  - intros Hn Hle Hcond. rewrite T. unfold repartir_partilha. rewrite Hn.
    rewrite repartir_declarados_conserva by done. rewrite <- Ht. ring.
Qed.

Lemma partilha_contabiliza_witness :
  exists info,
    ler_beneficiarios (Beneficiaries partilha_primeira_ex) = Ok info
    /\ exists p' restantes removido,
         foldl remover_agente (dono_unico, 0) (Agents partilha_primeira_ex)
         = (restantes, removido)
         /\ processar_partilha dono_unico partilha_primeira_ex = Ok p'
         /\ total restantes + removido = total dono_unico
         /\ (forall k, restantes !! k
                       = if decide (k ∈ map chave_proprietario
                                               (Agents partilha_primeira_ex))
                         then None else dono_unico !! k)
         /\ total p' = total restantes
                       + soma_creditos (repartir_partilha removido info)
         /\ (forall k, k ∉ map chave_proprietario (Beneficiaries partilha_primeira_ex) ->
                       p' !! k = restantes !! k)
         /\ (nenhum_informado info = false ->
             total_declarado info ≤ removido ->
             ((0 < nao_informados info)%nat \/ 0 < total_declarado info
              \/ total_declarado info = removido) ->
             total p' = total dono_unico).
Proof.
  eexists. split; [vm_compute; reflexivity|].
  apply (partilha_contabiliza dono_unico partilha_primeira_ex).
  vm_compute. reflexivity.
Defined.

(** ** Death: percentages written as plain numbers *)

Section Pesos.
Implicit Types (b : Party) (bs : list Party).



End Pesos.



(** X15.  A death action none of whose agents holds a record leaves the
    ledger as it was, whatever the beneficiaries: their percentages are
    not even read. *)
Theorem obito_agentes_ausentes (p : gmap string Registro) (acao : Acao) :
  Forall (fun a => p !! chave_proprietario a = None) (Agents acao) ->
  processar_obito p acao = Ok p.
Proof.
  unfold processar_obito. generalize (Beneficiaries acao) as bs. intros bs.
  induction 1 as [|a l Ha _ IH]; [done|].
  assert (E : obito_agente bs p a = Ok p) by (unfold obito_agente; by rewrite Ha).
  cbn [foldM]. by rewrite E.
Qed.

Lemma obito_agentes_ausentes_witness :
  processar_obito dono_unico obito_desconhecido_ex = Ok dono_unico.
Proof.
  apply (obito_agentes_ausentes dono_unico obito_desconhecido_ex).
  constructor; [vm_compute; reflexivity | constructor].
Defined.

(** ** Usufruct *)

Section Usufruto.
Implicit Types (p u : gmap string Registro) (r : Registro) (k : string).

Lemma creditar_presente p (b : Party) (q : Qc) :
  is_Some (creditar p b q !! chave_proprietario b).
Proof.
  unfold creditar. destruct (p !! chave_proprietario b); rewrite lookup_insert_eq; eauto.
Qed.

Lemma creditos_presentes (f : Qc -> Qc) (l : list (Party * Qc)) p k :
  is_Some (p !! k) \/ k ∈ map (fun bw => chave_proprietario bw.1) l ->
  is_Some (foldl (fun q bw => creditar q bw.1 (f bw.2)) p l !! k).
Proof.
  revert p. induction l as [|bw l IH]; intros p [H|H]; cbn [foldl map] in *.
  - done.
  - by apply elem_of_nil in H.
  - apply IH. left. destruct (decide (k = chave_proprietario bw.1)) as [->|Hne].
    + apply creditar_presente.
    + by rewrite lookup_creditar_ne.
  - apply elem_of_cons in H as [->|H].
    + apply IH. left. apply creditar_presente.
    + apply IH. by right.
Qed.
End Usufruto.

(** X16.  A usufruct grant whose weights (the received percentage, 100
    when unknown or zero) are read without raising only accumulates: the
    total of the usufruct ledger grows by the sum of the weights, records
    of keys that are no beneficiary are unchanged, every beneficiary
    holds a record afterwards, and no record is removed. *)
Theorem usufruto_acumula (u : gmap string Registro) (acao : Acao) (ws : list Qc) :
  Forall2 (fun b w => peso b = Ok w) (Beneficiaries acao) ws ->
  exists u', processar_usufruto u acao = Ok u'
    /\ total u' = total u + soma ws
    /\ (forall k, k ∉ map chave_proprietario (Beneficiaries acao) -> u' !! k = u !! k)
    /\ (forall b, b ∈ Beneficiaries acao -> is_Some (u' !! chave_proprietario b))
    /\ (forall k, is_Some (u !! k) -> is_Some (u' !! k)).
Proof.
  intros Hw. unfold processar_usufruto.
  rewrite (creditos_por_peso (fun w => w) _ _ u Hw).
  eexists. split; [done|].
  assert (Hl : List.length (Beneficiaries acao) = List.length ws)
    by (by eapply Forall2_length).
  split; [|split; [|split]].
  - rewrite (total_creditos (fun w => w)), (map_zip_snd (fun w => w)) by done.
    by rewrite map_id.
  - intros k Hk. apply (lookup_creditos (fun w => w)).
    by rewrite (map_zip_fst chave_proprietario).
  - intros b Hb. apply (creditos_presentes (fun w => w)). right.
    rewrite (map_zip_fst chave_proprietario) by done.
    apply list_elem_of_fmap. by exists b.
  - intros k Hk. apply (creditos_presentes (fun w => w)). by left.
Qed.

Lemma usufruto_acumula_witness :
  exists ws,
    Forall2 (fun b w => peso b = Ok w) (Beneficiaries usufruto_ex) ws
    /\ exists u', processar_usufruto dono_unico usufruto_ex = Ok u'
         /\ total u' = total dono_unico + soma ws
         /\ (forall k, k ∉ map chave_proprietario (Beneficiaries usufruto_ex) ->
                       u' !! k = dono_unico !! k)
         /\ (forall b, b ∈ Beneficiaries usufruto_ex ->
                       is_Some (u' !! chave_proprietario b))
         /\ (forall k, is_Some (dono_unico !! k) -> is_Some (u' !! k)).
Proof.
  eexists. split.
  - econstructor; [vm_compute; reflexivity|].
    econstructor; [vm_compute; reflexivity|]. constructor.
  - apply (usufruto_acumula dono_unico usufruto_ex).
    constructor; [vm_compute; reflexivity|].
    constructor; [vm_compute; reflexivity|]. constructor.
Defined.

(** ** Marital status *)

Section EstadoCivil.
Implicit Types (p : gmap string Registro) (r : Registro) (k : string).

Lemma alteracao_como_foldl p (acao : Acao) :
  processar_alteracao_estado_civil p acao = foldl anotar_conjuge p (Agents acao).
Proof. done. Qed.

Lemma so_conjuges_refl p : so_conjuges p p.
Proof.
  split.
  - intros k r Hk. by exists r.
  - intros k r' Hk Hn. congruence.
Qed.

Lemma so_conjuges_trans p1 p2 p3 :
  so_conjuges p1 p2 -> so_conjuges p2 p3 -> so_conjuges p1 p3.
Proof.
  intros [H1 N1] [H2 N2]. split.
  - intros k r Hk. destruct (H1 k r Hk) as (r2 & Hk2 & Hn & Hc & Hp & Hs).
    destruct (H2 k r2 Hk2) as (r3 & Hk3 & Hn3 & Hc3 & Hp3 & Hs3).
    exists r3. split; [done|]. repeat split; try congruence.
    intros Hne. rewrite <- (Hs Hne). apply Hs3. by rewrite (Hs Hne).
  - intros k r3 Hk3 Hk1.
    destruct (p2 !! k) as [r2|] eqn:Hk2.
    + destruct (H2 k r2 Hk2) as (r3' & Hk3' & _ & _ & Hp & _).
      assert (r3' = r3) by congruence. subst. rewrite Hp. by apply (N1 k).
    + by apply (N2 k).
Qed.

Lemma anotar_so_conjuges p (a : Party) : so_conjuges p (anotar_conjuge p a).
Proof.
  unfold anotar_conjuge.
  destruct (p !! chave_proprietario a) as [r0|] eqn:Hk0.
  - destruct (Conjuge_r r0) eqn:Hc0; [apply so_conjuges_refl|].
    split.
    + intros k r Hk. destruct (decide (k = chave_proprietario a)) as [->|Hne].
      * rewrite lookup_insert_eq. assert (r = r0) by congruence. subst.
        eexists. split; [done|]. repeat split. intros Hne. by rewrite Hc0 in Hne.
      * rewrite lookup_insert_ne by done. by exists r.
    + intros k r' Hk' Hn. destruct (decide (k = chave_proprietario a)) as [->|Hne].
      * congruence.
      * rewrite lookup_insert_ne in Hk' by done. congruence.
  - split.
    + intros k r Hk. destruct (decide (k = chave_proprietario a)) as [->|Hne].
      * congruence.
      * rewrite lookup_insert_ne by done. by exists r.
    + intros k r' Hk' Hn. destruct (decide (k = chave_proprietario a)) as [->|Hne].
      * rewrite lookup_insert_eq in Hk'. by injection Hk' as <-.
      * rewrite lookup_insert_ne in Hk' by done. congruence.
Qed.

Lemma anotar_total p (a : Party) : total (anotar_conjuge p a) = total p.
Proof.
  unfold anotar_conjuge.
  destruct (p !! chave_proprietario a) as [r0|] eqn:Hk0.
  - destruct (Conjuge_r r0); [done|].
    rewrite <- insert_delete_eq, total_insert by apply lookup_delete_eq.
    by rewrite (total_delete p _ r0 Hk0).
  - rewrite total_insert by done. cbn. ring.
Qed.

Lemma anotar_todos p (ags : list Party) :
  so_conjuges p (foldl anotar_conjuge p ags)
  /\ total (foldl anotar_conjuge p ags) = total p
  /\ (forall a, a ∈ ags -> is_Some (foldl anotar_conjuge p ags !! chave_proprietario a)).
Proof.
  induction ags as [|a l IH] using rev_ind.
  - split; [apply so_conjuges_refl|]. split; [done|].
    intros a Ha. by apply elem_of_nil in Ha.
  - rewrite foldl_app. cbn [foldl]. destruct IH as (Hs & Ht & Hp).
    split; [|split].
    + eapply so_conjuges_trans; [exact Hs | apply anotar_so_conjuges].
    + by rewrite anotar_total.
    + intros b Hb. apply elem_of_app in Hb as [Hb|Hb].
      * destruct (Hp b Hb) as [r Hr].
        destruct (proj1 (anotar_so_conjuges (foldl anotar_conjuge p l) a) _ _ Hr)
          as (r' & Hr' & _). by exists r'.
      * apply list_elem_of_singleton in Hb as ->. unfold anotar_conjuge at 1.
        destruct (foldl anotar_conjuge p l !! chave_proprietario a) as [r0|] eqn:Hk0.
        -- destruct (Conjuge_r r0); [by exists r0 | rewrite lookup_insert_eq; eauto].
        -- rewrite lookup_insert_eq. eauto.
Qed.

Lemma podar_ident p : acima_do_limiar p -> podar p = p.
Proof.
  intros H. unfold podar. apply map_filter_id. intros k r Hk. by apply (H k).
Qed.

Lemma total_nulo (m : gmap string Registro) :
  (forall k r, m !! k = Some r -> Percentual r = 0) -> total m = 0.
Proof.
  induction m as [|k r m Hk _ IH] using map_first_key_ind; intros Hm.
  - apply total_empty.
  - rewrite total_insert by done.
    rewrite (Hm k r) by apply lookup_insert_eq. rewrite IH; [ring|].
    intros k' r' Hk'. apply (Hm k'). rewrite lookup_insert_ne; [done|].
    intros ->. congruence.
Qed.
End EstadoCivil.

(** X17.  A marital-status action changes nothing but spouses: every
    record keeps its name, tax id and percentage, a record that already
    has a spouse is left as it is, the records it adds are at 0%, the
    ledger total is unchanged, and every agent holds a record
    afterwards. *)
Theorem alteracao_preserva (p : gmap string Registro) (acao : Acao) :
  so_conjuges p (processar_alteracao_estado_civil p acao)
  /\ total (processar_alteracao_estado_civil p acao) = total p
  /\ (forall a, a ∈ Agents acao ->
        is_Some (processar_alteracao_estado_civil p acao !! chave_proprietario a)).
Proof. rewrite alteracao_como_foldl. apply anotar_todos. Qed.

(** X18.  In the loop of [processar_acoes], on a ledger whose records are
    all above the threshold, a marital-status action never adds an owner:
    the records it creates at 0% are pruned at the end of the same turn,
    so the keys and the total are those of before, each record keeps its
    name, tax id and percentage, and the usufruct ledger is untouched. *)
Theorem alteracao_no_despacho (st : estado) (acao : Acao) :
  contains "alteração do estado civil e nome" (lower (obter_tipo_acao acao)) = true ->
  acima_do_limiar st.1 ->
  exists p', processar_acao st acao = Ok (p', st.2)
    /\ (forall k, is_Some (p' !! k) <-> is_Some (st.1 !! k))
    /\ (forall k r, st.1 !! k = Some r ->
          exists r', p' !! k = Some r'
            /\ Nome r' = Nome r /\ rCPF r' = rCPF r /\ Percentual r' = Percentual r
            /\ (Conjuge_r r <> None -> r' = r))
    /\ total p' = total st.1.
Proof.
  intros Hc Hinv. unfold processar_acao. rewrite Hc. cbn [mbind res_bind fst snd].
  rewrite alteracao_como_foldl.
  destruct (anotar_todos st.1 (Agents acao)) as ([Hs Hn] & Ht & _).
  set (q := foldl anotar_conjuge st.1 (Agents acao)) in *.
  assert (Hkeep : forall k r, st.1 !! k = Some r ->
            exists r', podar q !! k = Some r'
              /\ Nome r' = Nome r /\ rCPF r' = rCPF r /\ Percentual r' = Percentual r
              /\ (Conjuge_r r <> None -> r' = r)).
  { intros k r Hk. destruct (Hs k r Hk) as (r' & Hr' & H1 & H2 & H3 & H4).
    exists r'. split; [|done]. apply lookup_podar. split; [done|].
    rewrite H3. by apply (Hinv k). }
  assert (Hdom : forall k, is_Some (podar q !! k) <-> is_Some (st.1 !! k)).
  { intros k. split.
    - intros [r' Hr']. apply lookup_podar in Hr' as [Hr' Hgt].
      destruct (st.1 !! k) as [r|] eqn:Hk; [eauto|].
      rewrite (Hn k r' Hr' Hk) in Hgt. exfalso.
      apply (Qclt_not_le _ _ limiar_positivo). by apply Qclt_le_weak.
    - intros [r Hk]. destruct (Hkeep k r Hk) as (r' & Hr' & _). eauto. }
  exists (podar q). split; [done|]. split; [done|]. split; [done|].
  rewrite <- Ht.
  rewrite (total_filter_split (fun kv => limiar < Percentual kv.2) q).
  fold (podar q).
  rewrite (total_nulo (filter _ q)); [ring|].
  intros k r Hk. apply map_lookup_filter_Some in Hk as [Hk Hnlt]. cbn in Hnlt.
  destruct (st.1 !! k) as [r0|] eqn:Hk0.
  - destruct (Hs k r0 Hk0) as (r' & Hr' & _ & _ & Hp & _).
    assert (r' = r) by congruence. subst. exfalso. apply Hnlt. rewrite Hp.
    by apply (Hinv k).
  - by apply (Hn k).
Qed.

Lemma alteracao_no_despacho_witness :
  exists p', processar_acao (dono_unico, ∅) estado_civil_ex = Ok (p', ∅)
    /\ (forall k, is_Some (p' !! k) <-> is_Some (dono_unico !! k))
    /\ (forall k r, dono_unico !! k = Some r ->
          exists r', p' !! k = Some r'
            /\ Nome r' = Nome r /\ rCPF r' = rCPF r /\ Percentual r' = Percentual r
            /\ (Conjuge_r r <> None -> r' = r))
    /\ total p' = total dono_unico.
Proof.
  apply (alteracao_no_despacho (dono_unico, ∅) estado_civil_ex).
  - vm_compute. reflexivity.
  - intros k r Hk. cbn [fst] in Hk. unfold dono_unico in Hk.
    apply lookup_singleton_Some in Hk as [_ <-]. reflexivity.
Defined.

(** ** The dispatcher *)

Section SemEfeito.
Implicit Types (p : gmap string Registro) (st : estado).

Lemma sem_palavras (tipo : string) :
  existsb (fun x => contains x tipo) palavras_chave = false ->
  Forall (fun x => contains x tipo = false) palavras_chave.
Proof.
  intros H. apply Forall_forall. intros x Hx.
  destruct (contains x tipo) eqn:E; [|done].
  assert (existsb (fun x => contains x tipo) palavras_chave = true); [|congruence].
  apply existsb_exists. exists x. split; [by apply list_elem_of_In | done].
Qed.
End SemEfeito.

(** X19.  Actions without effect.  A label of the ignored categories
    (a change of name, a marriage) that is not a marital-status action
    leaves both ledgers as they are, without even the pruning.  A label
    that holds none of the words the dispatcher looks for only prunes the
    owners, which changes nothing when every record is above the
    threshold. *)
Theorem acao_sem_efeito (st : estado) (acao : Acao) :
  (contains "alteração do estado civil e nome" (lower (obter_tipo_acao acao)) = false ->
   (contains "alteração nome" (lower (obter_tipo_acao acao)) = true
    \/ contains "casamento" (lower (obter_tipo_acao acao)) = true) ->
   processar_acao st acao = Ok st)
  /\ (existsb (fun x => contains x (lower (obter_tipo_acao acao))) palavras_chave
      = false ->
      processar_acao st acao = Ok (podar st.1, st.2)
      /\ (acima_do_limiar st.1 -> processar_acao st acao = Ok st)).
Proof.
  set (tipo := lower (obter_tipo_acao acao)). split.
  - intros H1 H2. unfold processar_acao. fold tipo. rewrite H1. cbn [existsb].
    destruct H2 as [-> | ->]; [done|]. by rewrite orb_true_r.
  - intros H. apply sem_palavras in H.
    assert (Hc : contains "cancelamento de usufruto" tipo = false).
    { destruct (contains "cancelamento de usufruto" tipo) eqn:E; [|done].
      apply cancelamento_contem_usufruto in E.
      rewrite Forall_forall in H. rewrite (H "usufruto") in E; [done|].
      unfold palavras_chave. rewrite !elem_of_cons. tauto. }
    assert (Hv : contains "venda nua propriedade" tipo = false).
    { destruct (contains "venda nua propriedade" tipo) eqn:E; [|done].
      apply (contains_prefixo "venda" " nua propriedade") in E.
      rewrite Forall_forall in H. rewrite (H "venda") in E; [done|].
      unfold palavras_chave. rewrite !elem_of_cons. tauto. }
    assert (E : processar_acao st acao = Ok (podar st.1, st.2)).
    { unfold palavras_chave in H.
      repeat match goal with
             | H : Forall _ (_ :: _) |- _ => apply Forall_cons in H as [? H]
             end.
      unfold processar_acao. fold tipo. cbn [existsb].
      repeat match goal with H : contains _ tipo = false |- _ => rewrite H; clear H end.
      done. }
    split; [done|]. intros Hinv. rewrite E, (podar_ident _ Hinv). by destruct st.
Qed.

Lemma acao_sem_efeito_witness :
  processar_acao (dono_unico, ∅) casamento_ex = Ok (dono_unico, ∅)
  /\ processar_acao (dono_unico, ∅) averbacao_ex
     = Ok (podar (dono_unico, ∅ : gmap string Registro).1,
           (dono_unico, ∅ : gmap string Registro).2).
Proof.
  split.
  - apply (proj1 (acao_sem_efeito (dono_unico, ∅) casamento_ex)).
    + vm_compute. reflexivity.
    + right. vm_compute. reflexivity.
  - refine (proj1 (proj2 (acao_sem_efeito (dono_unico, ∅) averbacao_ex) _)).
    vm_compute. reflexivity.
Defined.

(** X20.  What [processar_acoes] hands back when it returns: the owners
    are those of the loop and every one of them is above the threshold;
    the usufruct holders are exactly the records of the loop's usufruct
    ledger whose key is no owner's, so no key is in both lists. *)
Theorem saida_final (lista_acoes : list Acao) (st : estado) :
  processar_acoes lista_acoes = Ok st ->
  acima_do_limiar st.1
  /\ (forall k, is_Some (st.2 !! k) -> st.1 !! k = None)
  /\ exists st0, processar_lista lista_acoes = Ok st0
       /\ st.1 = st0.1
       /\ (forall k r, st.2 !! k = Some r <-> st0.2 !! k = Some r /\ st0.1 !! k = None).
Proof.
  unfold processar_acoes.
  destruct (processar_lista lista_acoes) as [st0|e] eqn:E; [|done].
  cbn. intros [= <-]. cbn [fst snd].
  assert (Hl : forall k r,
             filter (fun kv : string * Registro => st0.1 !! kv.1 = None) st0.2 !! k = Some r
             <-> st0.2 !! k = Some r /\ st0.1 !! k = None).
  { intros k r. apply (map_lookup_filter_Some (fun kv => st0.1 !! kv.1 = None)). }
  split; [|split].
  - unfold processar_lista in E.
    eapply (processar_prefixo_acima _ (∅, ∅) st0); [|exact E].
    intros k r Hk. cbn in Hk. by rewrite lookup_empty in Hk.
  - intros k [r Hr]. by apply Hl in Hr as [_ ?].
  - exists st0. split; [done|]. split; [done|]. exact Hl.
Qed.

Lemma saida_final_witness :
  exists st, processar_acoes [venda_repartida_ex; usufruto_ex] = Ok st
    /\ acima_do_limiar st.1
    /\ (forall k, is_Some (st.2 !! k) -> st.1 !! k = None)
    /\ exists st0, processar_lista [venda_repartida_ex; usufruto_ex] = Ok st0
         /\ st.1 = st0.1
         /\ (forall k r, st.2 !! k = Some r
                         <-> st0.2 !! k = Some r /\ st0.1 !! k = None).
Proof.
  eexists. split; [vm_compute; reflexivity|].
  apply (saida_final [venda_repartida_ex; usufruto_ex]).
  vm_compute. reflexivity.
Defined.

(** ** Exceptions *)

Section SemExcecao.
Implicit Types (p u : gmap string Registro) (bs ags : list Party).













End SemExcecao.


